(** * TimeGuard attendance: the mock backend (services/api.ts), the
    collaborator wrappers (services/locationService.ts) and the check-in
    state machine (App.tsx), embedded as executable Rocq definitions.

    Conventions of the embedding.
    - A [Promise<A>] that has settled is a [Promise A]: resolved with a value
      or rejected with an [Error].
    - [localStorage] and [sessionStorage] hold text.  A stored text is either
      the empty string (falsy in JavaScript) or the JSON text of a value; the
      pair [JSON.stringify]/[JSON.parse] is taken as the identity on the
      typed values the program writes, so an item is a [Text A].
    - A [Date] is the integer number of milliseconds since the epoch, which
      is also what survives the JSON text of a date.
    - Every function of api.ts awaits [simulateDelay] first and then runs to
      completion without another suspension point, so each one is an atomic
      transformer of [localStorage].
    - [handleCheckIn] suspends between its steps; it is embedded for a
      single writer: no other task writes the stores while it runs.
    - What the outside world decides (the clock, the network, the position
      service) is an argument of the function that asks for it. *)

From Stdlib Require Import ZArith List Floats.PrimFloat.
From stdpp Require Import base tactics option strings list pretty.
Import ListNotations.

Local Open Scope string_scope.
Local Open Scope list_scope.
Local Open Scope Z_scope.

(** ** ../types *)

(** Modelled from the spec: the file [types.ts] of the repository is not
    among the sources.  Section 3 of the specification gives the two roles;
    api.ts and App.tsx use them as [UserRole.Admin] and [UserRole.Employee]. *)
Inductive UserRole := Admin | Employee.

#[global] Instance UserRole_eq_dec : EqDecision UserRole.
Proof. solve_decision. Defined.

(** A [Date] value, in milliseconds since the epoch. *)
Definition Date := Z.

Module User.
(** Modelled from the spec: [types.ts] is not among the sources.  The
    fields are those of section 3 of the specification, with the names and
    the shapes the seed records of api.ts give them.  [password] is
    optional ([stripPassword] returns a [User] without it), [status] is
    carried as the string it is compared and stored as, and [lastCheckIn]
    is [null] or a date. *)
Record t := mk {
  id : string;
  name : string;
  username : string;
  password : option string;
  role : UserRole;
  status : string;
  lastCheckIn : option Date
}.
End User.
Abbreviation User := User.t.

Module GeolocationData.
(** Modelled from the spec: [types.ts] is not among the sources; the two
    fields are the ones [getGeolocation] fills in. *)
Record t := mk { latitude : float; longitude : float }.
End GeolocationData.
Abbreviation GeolocationData := GeolocationData.t.

Module LogEntry.
(** Modelled from the spec: [types.ts] is not among the sources.  The
    fields are the ones [handleCheckIn] and [addLog] write. [location] is a
    position or [null]; [locationError] is optional. *)
Record t := mk {
  id : string;
  userId : string;
  userName : string;
  timestamp : Date;
  type : string;
  ip : string;
  location : option GeolocationData;
  locationError : option string
}.
End LogEntry.
Abbreviation LogEntry := LogEntry.t.

Module NewLog.
(** [Omit<LogEntry, 'id'>] *)
Record t := mk {
  userId : string;
  userName : string;
  timestamp : Date;
  type : string;
  ip : string;
  location : option GeolocationData;
  locationError : option string
}.
End NewLog.
Abbreviation NewLog := NewLog.t.

(** ** JavaScript values the code relies on *)

(** [new Error(message)] *)
Record Error := mkError { message : string }.

Inductive Promise (A : Type) :=
  | Resolved (a : A)
  | Rejected (e : Error).
Arguments Resolved {A} a.
Arguments Rejected {A} e.

(** A stored text: the empty string, or the JSON text of [a]. *)
Inductive Text (A : Type) :=
  | EmptyText
  | Json (a : A).
Arguments EmptyText {A}.
Arguments Json {A} a.

(** Truthiness of the result of [Storage.getItem]: [null] and the empty
    string are falsy, every other string is truthy (a JSON text is never
    empty). *)
Definition truthy_item {A} (item : option (Text A)) : bool :=
  match item with
  | Some (Json _) => true
  | Some EmptyText | None => false
  end.

(** [JSON.parse(item || '[]')] *)
Definition parse_or_empty {A} (item : option (Text (list A))) : list A :=
  match item with
  | Some (Json l) => l
  | Some EmptyText | None => []
  end.

(** Truthiness of an optional string ([undefined] and [''] are falsy). *)
Definition truthy_string (s : option string) : bool :=
  match s with
  | Some s => negb (String.eqb s "")
  | None => false
  end.

(** [a === b] on strings. *)
Definition strict_eq (a b : string) : bool := String.eqb a b.
Infix "===" := strict_eq (at level 70, no associativity).

(** ** services/api.ts *)

Module api.

(** [localStorage], restricted to the two keys the program uses:
    [USERS_KEY = 'timeguard_users'] and [LOGS_KEY = 'timeguard_logs']. *)
Record LocalStorage := mkLocalStorage {
  timeguard_users : option (Text (list User));
  timeguard_logs : option (Text (list LogEntry))
}.

Definition set_users (us : list User) (ls : LocalStorage) : LocalStorage :=
  {| timeguard_users := Some (Json us); timeguard_logs := timeguard_logs ls |}.

Definition set_logs (logs : list LogEntry) (ls : LocalStorage) : LocalStorage :=
  {| timeguard_users := timeguard_users ls; timeguard_logs := Some (Json logs) |}.

(** An asynchronous function of api.ts, run from the end of its delay to
    the settlement of its promise. *)
Definition Api (A : Type) : Type := LocalStorage → Promise A * LocalStorage.

Definition ret {A} (a : A) : Api A := λ ls, (Resolved a, ls).
Definition throw {A} (e : Error) : Api A := λ ls, (Rejected e, ls).
Definition bind {A B} (m : Api A) (k : A → Api B) : Api B :=
  λ ls, match m ls with
        | (Resolved a, ls') => k a ls'
        | (Rejected e, ls') => (Rejected e, ls')
        end.
Definition read_users : Api (list User) :=
  λ ls, (Resolved (parse_or_empty (timeguard_users ls)), ls).
Definition read_logs : Api (list LogEntry) :=
  λ ls, (Resolved (parse_or_empty (timeguard_logs ls)), ls).
Definition write_users (us : list User) : Api unit :=
  λ ls, (Resolved tt, set_users us ls).
Definition write_logs (logs : list LogEntry) : Api unit :=
  λ ls, (Resolved tt, set_logs logs ls).

#[global] Instance Api_ret : MRet Api := @ret.
#[global] Instance Api_bind : MBind Api := λ A B k m, bind m k.

Definition initialUsers : list User :=
  [ User.mk "admin-1" "Admin User" "admin" (Some "admin") Admin "Checked Out" None;
    User.mk "emp-1" "Alice" "alice" (Some "alice123") Employee "Checked Out" None;
    User.mk "emp-2" "Bob" "bob" (Some "bob123") Employee "Checked Out" None;
    User.mk "emp-3" "Charlie" "charlie" (Some "charlie123") Employee "Checked Out" None ].

Definition initializeData (ls : LocalStorage) : LocalStorage :=
  let ls :=
    if negb (truthy_item (timeguard_users ls)) then set_users initialUsers ls else ls in
  if negb (truthy_item (timeguard_logs ls)) then set_logs [] ls else ls.

Definition stripPassword (user : User) : User :=
  User.mk (User.id user) (User.name user) (User.username user) None
          (User.role user) (User.status user) (User.lastCheckIn user).

Definition login (username password : string) : Api User :=
  users ← read_users;
  let user := List.find (λ u, User.username u === username) users in
  match user with
  | Some user =>
      (* [user.password === password]: an absent password equals no string *)
      match User.password user with
      | Some p => if p === password then mret (stripPassword user)
                  else throw (mkError "Invalid username or password.")
      | None => throw (mkError "Invalid username or password.")
      end
  | None => throw (mkError "Invalid username or password.")
  end.

Definition getUsers : Api (list User) :=
  users ← read_users;
  mret (List.map stripPassword users).

(** [getLogs]; the [map] turns every stored [timestamp] back into a
    [Date], which leaves a date in milliseconds as it is. *)
Definition getLogs : Api (list LogEntry) :=
  logs ← read_logs;
  mret logs.

Definition addUser (newUser : User) : Api User :=
  users ← read_users;
  if existsb (λ u, User.username u === User.username newUser) users
  then throw (mkError "Username already exists.")
  else
    _ ← write_users (users ++ [newUser]);
    mret (stripPassword newUser).

(** [{ ...u, ...updatedUser, password }]: every field of [User] but the
    optional [password] is present in [updatedUser] and overrides the one
    of [u]; the explicit [password] comes last. *)
Definition merge (u updatedUser : User) : User :=
  let password :=
    if truthy_string (User.password updatedUser)
    then User.password updatedUser else User.password u in
  User.mk (User.id updatedUser) (User.name updatedUser)
          (User.username updatedUser) password (User.role updatedUser)
          (User.status updatedUser) (User.lastCheckIn updatedUser).

Definition updateUser (updatedUser : User) : Api User :=
  users ← read_users;
  let userFound := existsb (λ u, User.id u === User.id updatedUser) users in
  let users :=
    List.map (λ u, if User.id u === User.id updatedUser
                   then merge u updatedUser else u) users in
  if negb userFound then throw (mkError "User not found.")
  else
    _ ← write_users users;
    match List.find (λ u, User.id u === User.id updatedUser) users with
    | Some u => mret (stripPassword u)
    | None =>
        (* [stripPassword(undefined)] is a TypeError; not reached, since
           [userFound] holds here *)
        throw (mkError "TypeError")
    end.

Definition deleteUser (userId : string) : Api unit :=
  users ← read_users;
  write_users (List.filter (λ u, negb (User.id u === userId)) users).

(** [addLog]; [now] is the value [Date.now()] returns in this call.  The
    entry is put in front of the stored ones ([unshift]) and returned. *)
Definition addLog (now : Z) (newLog : NewLog) : Api LogEntry :=
  logs ← read_logs;
  let logWithId :=
    LogEntry.mk ("log-" +:+ pretty now) (NewLog.userId newLog)
                (NewLog.userName newLog) (NewLog.timestamp newLog)
                (NewLog.type newLog) (NewLog.ip newLog)
                (NewLog.location newLog) (NewLog.locationError newLog) in
  _ ← write_logs (logWithId :: logs);
  mret logWithId.

End api.

(** ** services/locationService.ts *)

Module locationService.

(** What [navigator.geolocation] does with one [getCurrentPosition]
    request: it is missing, or it calls the success callback with a
    position, or the error callback with a [GeolocationPositionError]
    of the given [code]. *)
Inductive Geolocation :=
  | NotSupported
  | Position (latitude longitude : float)
  | PositionError (code : Z).

(** The constants of [GeolocationPositionError]. *)
Definition PERMISSION_DENIED : Z := 1.
Definition POSITION_UNAVAILABLE : Z := 2.
Definition TIMEOUT : Z := 3.

Definition getGeolocation (geolocation : Geolocation) : Promise GeolocationData :=
  match geolocation with
  | NotSupported =>
      Rejected (mkError "Geolocation is not supported by your browser.")
  | Position latitude longitude =>
      Resolved (GeolocationData.mk latitude longitude)
  | PositionError code =>
      let errorMessage :=
        if code =? PERMISSION_DENIED then "User denied the request for Geolocation."
        else if code =? POSITION_UNAVAILABLE then "Location information is unavailable."
        else if code =? TIMEOUT then "The request to get user location timed out."
        else "An unknown error occurred." in
      Rejected (mkError errorMessage)
  end.

(** The body the ipify service answers with, [{"ip": ...}]. *)
Record IpifyData := mkIpifyData { ip : string }.

(** What [fetch('https://api.ipify.org?format=json')] does: it rejects, or
    it resolves with a response whose [ok] flag is given and whose
    [json()] rejects ([None]) or resolves with the parsed body. *)
Inductive Fetch :=
  | FetchRejected
  | Response (ok : bool) (json : option IpifyData).

Definition getIpAddress (fetch : Fetch) : Promise string :=
  match fetch with
  | Response true (Some data) => Resolved (ip data)
  | Response true None      (* [response.json()] throws: caught *)
  | Response false _        (* [throw new Error('Failed to fetch IP address')]: caught *)
  | FetchRejected           (* [fetch] throws: caught *)
    => Resolved "Unavailable"
  end.

End locationService.

(** ** App.tsx *)

Module App.

(** The state hooks of the [App] component. *)
Record State := mkState {
  loggedInUser : option User;
  users : list User;
  logs : list LogEntry;
  isLoading : bool;
  isProcessing : bool;
  loginError : option string
}.

(** The component state together with the two browser stores.
    [timeguard_session] is the item of that name in [sessionStorage]. *)
Record World := mkWorld {
  state : State;
  timeguard_session : option (Text User);
  localStorage : api.LocalStorage
}.

(** The state of a freshly mounted component. *)
Definition initialState : State := mkState None [] [] true false None.

(** The effect of the first render: [loadData]. *)
Definition loadData (w : World) : World :=
  let st := state w in
  let settle st' session :=
    (* [finally { setIsLoading(false) }] *)
    mkWorld (mkState (loggedInUser st') (users st') (logs st') false
                     (isProcessing st') (loginError st'))
            session (localStorage w) in
  let failed :=
    settle (mkState (loggedInUser st) (users st) (logs st) (isLoading st)
                    (isProcessing st)
                    (Some "Could not load application data. Please refresh."))
           (timeguard_session w) in
  match api.getUsers (localStorage w), api.getLogs (localStorage w) with
  | (Resolved loadedUsers, _), (Resolved loadedLogs, _) =>
      let st1 := mkState (loggedInUser st) loadedUsers loadedLogs (isLoading st)
                         (isProcessing st) (loginError st) in
      match timeguard_session w with
      | Some (Json parsedUser) =>
          let userExists :=
            existsb (λ u, User.id u === User.id parsedUser) loadedUsers in
          if userExists
          then settle (mkState (Some parsedUser) (users st1) (logs st1)
                               (isLoading st1) (isProcessing st1) (loginError st1))
                      (timeguard_session w)
          else settle st1 None
      | Some EmptyText | None => settle st1 (timeguard_session w)
      end
  | _, _ => failed
  end.

Definition handleLogin (username password : string) (w : World) : World :=
  let st := state w in
  match api.login username password (localStorage w) with
  | (Resolved user, ls) =>
      mkWorld (mkState (Some user) (users st) (logs st) (isLoading st)
                       (isProcessing st) None)
              (Some (Json user)) ls
  | (Rejected error, ls) =>
      mkWorld (mkState (loggedInUser st) (users st) (logs st) (isLoading st)
                       (isProcessing st) (Some (message error)))
              (timeguard_session w) ls
  end.

Definition handleLogout (w : World) : World :=
  let st := state w in
  mkWorld (mkState None (users st) (logs st) (isLoading st) (isProcessing st)
                   (loginError st))
          None (localStorage w).

(** What one run of [handleCheckIn] receives from outside: the behaviour
    of the two collaborators and the three clock readings it takes, in
    this order: [new Date()] for the log entry, [Date.now()] inside
    [api.addLog], [new Date()] for [lastCheckIn]. *)
Record CheckInEnv := mkCheckInEnv {
  fetch : locationService.Fetch;
  geolocation : locationService.Geolocation;
  logDate : Date;
  logNow : Z;
  checkInDate : Date
}.

Record CheckInResult := mkCheckInResult { success : bool; result_message : string }.

Definition newStatus_of (status : string) : string :=
  if status === "Checked In" then "Checked Out" else "Checked In".

Definition logType_of (newStatus : string) : string :=
  if newStatus === "Checked In" then "in" else "out".

(** [newLog] of [handleCheckIn]. *)
Definition newLog_of (env : CheckInEnv) (loggedInUser : User) (ip : string) : NewLog :=
  let '(location, locationError) :=
    match locationService.getGeolocation (geolocation env) with
    | Resolved location => (Some location, None)
    | Rejected error => (None, Some (message error))
    end in
  let newStatus := newStatus_of (User.status loggedInUser) in
  let logType := logType_of newStatus in
  NewLog.mk (User.id loggedInUser) (User.name loggedInUser) (logDate env)
            logType ip location locationError.

(** [updatedUser] of [handleCheckIn]. *)
Definition updatedUser_of (env : CheckInEnv) (loggedInUser : User) : User :=
  let newStatus := newStatus_of (User.status loggedInUser) in
  User.mk (User.id loggedInUser) (User.name loggedInUser)
          (User.username loggedInUser) (User.password loggedInUser)
          (User.role loggedInUser) newStatus
          (if newStatus === "Checked In" then Some (checkInDate env)
           else User.lastCheckIn loggedInUser).

Definition handleCheckIn (env : CheckInEnv) (w : World) : CheckInResult * World :=
  let st := state w in
  let guard :=
    mkCheckInResult false "Another operation is in progress or user not logged in." in
  (* [catch] and [finally]: the generic failure, with the store as the
     steps before the throw left it *)
  let failed ls :=
    (mkCheckInResult false "Check-in process failed. Please try again.",
     mkWorld (mkState (loggedInUser st) (users st) (logs st) (isLoading st)
                      false (loginError st))
             (timeguard_session w) ls) in
  if isProcessing st then (guard, w)
  else match loggedInUser st with
  | None => (guard, w)
  | Some loggedInUser =>
      match locationService.getIpAddress (fetch env) with
      | Rejected _ => failed (localStorage w)
      | Resolved ip =>
          let newLog := newLog_of env loggedInUser ip in
          match api.addLog (logNow env) newLog (localStorage w) with
          | (Rejected _, ls) => failed ls
          | (Resolved createdLog, ls) =>
              let updatedUser := updatedUser_of env loggedInUser in
              match api.updateUser updatedUser ls with
              | (Rejected _, ls) => failed ls
              | (Resolved savedUser, ls) =>
                  let users' :=
                    List.map (λ u, if User.id u === User.id savedUser
                                   then savedUser else u) (users st) in
                  (mkCheckInResult true
                     ("Successfully Checked " +:+ NewLog.type newLog +:+ "!"),
                   mkWorld (mkState (Some savedUser) users' (createdLog :: logs st)
                                    (isLoading st) false (loginError st))
                           (Some (Json savedUser)) ls)
              end
          end
      end
  end.

(** The three handlers of the administrator.  Each awaits one call of
    api.ts and then updates the [users] hook; when the call rejects, the
    handler rejects with the same error and sets nothing. *)
Definition handleAddUser (user : User) (w : World) : Promise unit * World :=
  let st := state w in
  match api.addUser user (localStorage w) with
  | (Resolved newUser, ls) =>
      (Resolved tt,
       mkWorld (mkState (loggedInUser st) (users st ++ [newUser]) (logs st)
                        (isLoading st) (isProcessing st) (loginError st))
               (timeguard_session w) ls)
  | (Rejected error, ls) => (Rejected error, mkWorld st (timeguard_session w) ls)
  end.

Definition handleUpdateUser (updatedUser : User) (w : World) : Promise unit * World :=
  let st := state w in
  match api.updateUser updatedUser (localStorage w) with
  | (Resolved savedUser, ls) =>
      (Resolved tt,
       mkWorld (mkState (loggedInUser st)
                        (List.map (λ u, if User.id u === User.id savedUser
                                        then savedUser else u) (users st))
                        (logs st) (isLoading st) (isProcessing st) (loginError st))
               (timeguard_session w) ls)
  | (Rejected error, ls) => (Rejected error, mkWorld st (timeguard_session w) ls)
  end.

Definition handleDeleteUser (userId : string) (w : World) : Promise unit * World :=
  let st := state w in
  match api.deleteUser userId (localStorage w) with
  | (Resolved _, ls) =>
      (Resolved tt,
       mkWorld (mkState (loggedInUser st)
                        (List.filter (λ u, negb (User.id u === userId)) (users st))
                        (logs st) (isLoading st) (isProcessing st) (loginError st))
               (timeguard_session w) ls)
  | (Rejected error, ls) => (Rejected error, mkWorld st (timeguard_session w) ls)
  end.

(** What the component renders (the header and the footer left out): the
    loading notice, the login form with the error to show, the dashboard of
    the administrator with the employees of the [users] hook, or the view
    of the employee. *)
Inductive View :=
  | LoadingView
  | LoginView (error : option string)
  | AdminDashboardView (users : list User) (logs : list LogEntry)
  | EmployeeViewView (currentUser : User) (logs : list LogEntry).

Definition render (st : State) : View :=
  if isLoading st then LoadingView
  else match loggedInUser st with
  | None => LoginView (loginError st)
  | Some loggedInUser =>
      match User.role loggedInUser with
      | Admin =>
          AdminDashboardView
            (List.filter (λ u, bool_decide (User.role u = Employee)) (users st))
            (logs st)
      | Employee => EmployeeViewView loggedInUser (logs st)
      end
  end.

End App.

(** ** The vocabulary of the specification *)

(** The failures api.ts raises, under the names the specification uses. *)
Definition InvalidCredentials : Error := mkError "Invalid username or password.".
Definition DuplicateUsername : Error := mkError "Username already exists.".
Definition UserNotFound : Error := mkError "User not found.".

(** The Users and the Logs collection a store holds, as every function of
    api.ts reads them. *)
Definition stored_users (ls : api.LocalStorage) : list User :=
  parse_or_empty (api.timeguard_users ls).
Definition stored_logs (ls : api.LocalStorage) : list LogEntry :=
  parse_or_empty (api.timeguard_logs ls).

(** [x] is the first element of [l] that satisfies [P]. *)
Definition first_match {A} (P : A → Prop) (l : list A) (x : A) : Prop :=
  ∃ pre post, l = pre ++ x :: post ∧ P x ∧ Forall (λ y, ¬ P y) pre.

(** A settled promise of a user carries no password. *)
Definition sanitized (p : Promise User) : Prop :=
  match p with
  | Resolved u => User.password u = None
  | Rejected _ => True
  end.

(** Every user of a settled promise of a list of users is without password. *)
Definition sanitized_all (p : Promise (list User)) : Prop :=
  match p with
  | Resolved us => Forall (λ u, User.password u = None) us
  | Rejected _ => True
  end.

(** The step [users.map(...)] of [updateUser]. *)
Definition patched (updatedUser : User) (users : list User) : list User :=
  List.map (λ u, if User.id u === User.id updatedUser
                 then api.merge u updatedUser else u) users.

(** A sequence of [addLog] calls, in the order in which their bodies run
    (a body runs without suspension once its delay is over, so calls that
    were started together run one after the other as well); a call is the
    clock reading [Date.now()] gives it and its argument. *)
Definition appendLogs (calls : list (Z * NewLog)) (ls : api.LocalStorage)
    : api.LocalStorage :=
  fold_left (λ ls call, snd (api.addLog call.1 call.2 ls)) calls ls.

(** The entry a call of [addLog] stores and returns. *)
Definition logWithId (call : Z * NewLog) : LogEntry :=
  LogEntry.mk ("log-" +:+ pretty call.1) (NewLog.userId call.2)
              (NewLog.userName call.2) (NewLog.timestamp call.2)
              (NewLog.type call.2) (NewLog.ip call.2)
              (NewLog.location call.2) (NewLog.locationError call.2).

(** The IP lookup fails: [fetch] rejects, or the response is not [ok], or
    its body is not JSON. *)
Definition ip_lookup_failed (fetch : locationService.Fetch) : Prop :=
  match fetch with
  | locationService.Response true (Some _) => False
  | _ => True
  end.

(** A run of [handleCheckIn] from [w] to [w'] that reports success: one
    successful toggle. *)
Definition toggles (env : App.CheckInEnv) (w w' : App.World) : Prop :=
  ∃ result, App.handleCheckIn env w = (result, w') ∧ App.success result = true.

(** [w] passes the guard of [handleCheckIn] with the session identity [u]. *)
Definition authenticated (w : App.World) (u : User) : Prop :=
  App.isProcessing (App.state w) = false
  ∧ App.loggedInUser (App.state w) = Some u.

(** The world a run that passed the guard ends in when a later step throws. *)
Definition failed_world (w : App.World) (ls : api.LocalStorage) : App.World :=
  let st := App.state w in
  App.mkWorld (App.mkState (App.loggedInUser st) (App.users st) (App.logs st)
                           (App.isLoading st) false (App.loginError st))
              (App.timeguard_session w) ls.

(** The world a run ends in when every step succeeds. *)
Definition succeeded_world (w : App.World) (createdLog : LogEntry)
    (savedUser : User) (ls : api.LocalStorage) : App.World :=
  let st := App.state w in
  App.mkWorld
    (App.mkState (Some savedUser)
       (List.map (λ u, if User.id u === User.id savedUser then savedUser else u)
                 (App.users st))
       (createdLog :: App.logs st) (App.isLoading st) false (App.loginError st))
    (Some (Json savedUser)) ls.

(** The geolocation request fails: the browser has no geolocation, or it
    calls the error callback. *)
Definition geolocation_failed (geolocation : locationService.Geolocation) : Prop :=
  match geolocation with
  | locationService.Position _ _ => False
  | _ => True
  end.

(** One call of a function of api.ts, with what it reads from outside. *)
Inductive ApiCall :=
  | CallLogin (username password : string)
  | CallGetUsers
  | CallGetLogs
  | CallAddUser (newUser : User)
  | CallUpdateUser (updatedUser : User)
  | CallDeleteUser (userId : string)
  | CallAddLog (now : Z) (newLog : NewLog).

(** The store a call leaves. *)
Definition call (c : ApiCall) (ls : api.LocalStorage) : api.LocalStorage :=
  match c with
  | CallLogin username password => snd (api.login username password ls)
  | CallGetUsers => snd (api.getUsers ls)
  | CallGetLogs => snd (api.getLogs ls)
  | CallAddUser newUser => snd (api.addUser newUser ls)
  | CallUpdateUser updatedUser => snd (api.updateUser updatedUser ls)
  | CallDeleteUser userId => snd (api.deleteUser userId ls)
  | CallAddLog now newLog => snd (api.addLog now newLog ls)
  end.

(** Calls whose bodies run one after the other. *)
Definition calls (cs : list ApiCall) (ls : api.LocalStorage) : api.LocalStorage :=
  fold_left (λ ls c, call c ls) cs ls.

Definition is_update (c : ApiCall) : bool :=
  match c with CallUpdateUser _ => true | _ => false end.

Definition is_addLog (c : ApiCall) : bool :=
  match c with CallAddLog _ _ => true | _ => false end.

(** One use of a handler of [App], with what it reads from outside. *)
Inductive Action :=
  | Login (username password : string)
  | Logout
  | CheckIn (env : App.CheckInEnv)
  | AddUser (user : User)
  | UpdateUser (updatedUser : User)
  | DeleteUser (userId : string).

(** The world a handler leaves. *)
Definition act (a : Action) (w : App.World) : App.World :=
  match a with
  | Login username password => App.handleLogin username password w
  | Logout => App.handleLogout w
  | CheckIn env => snd (App.handleCheckIn env w)
  | AddUser user => snd (App.handleAddUser user w)
  | UpdateUser updatedUser => snd (App.handleUpdateUser updatedUser w)
  | DeleteUser userId => snd (App.handleDeleteUser userId w)
  end.

Definition acts (actions : list Action) (w : App.World) : App.World :=
  fold_left (λ w a, act a w) actions w.

(** The world after the module of api.ts is loaded and the component has
    mounted and run [loadData], in a browser whose stores hold [session]
    and [ls]. *)
Definition start (session : option (Text User)) (ls : api.LocalStorage) : App.World :=
  App.loadData (App.mkWorld App.initialState session (api.initializeData ls)).

(** The identity the session item holds, if any. *)
Definition session_user (w : App.World) : option User :=
  match App.timeguard_session w with
  | Some (Json u) => Some u
  | Some EmptyText | None => None
  end.

(** No password in an optional user. *)
Definition no_password (u : option User) : Prop :=
  match u with
  | Some u => User.password u = None
  | None => True
  end.

(** The users a view shows. *)
Definition shown_users (v : App.View) : list User :=
  match v with
  | App.LoadingView | App.LoginView _ => []
  | App.AdminDashboardView users _ => users
  | App.EmployeeViewView currentUser _ => [currentUser]
  end.

(** The page is loaded again: the component starts from its initial state
    on the stores [w] has. *)
Definition reload (w : App.World) : App.World :=
  App.loadData (App.mkWorld App.initialState (App.timeguard_session w)
                            (App.localStorage w)).

(** The [users] hook shows the Directory, without the passwords. *)
Definition synced (w : App.World) : Prop :=
  App.users (App.state w)
  = List.map api.stripPassword (stored_users (App.localStorage w)).

(** The logged-in user is the identity of the session item. *)
Definition session_coherent (w : App.World) : Prop :=
  App.loggedInUser (App.state w) = session_user w.

(** [result] is [u] without its password: no password, and every other
    field as in [u]. *)
Definition without_password (result u : User) : Prop :=
  User.password result = None
  ∧ User.id result = User.id u
  ∧ User.name result = User.name u
  ∧ User.username result = User.username u
  ∧ User.role result = User.role u
  ∧ User.status result = User.status u
  ∧ User.lastCheckIn result = User.lastCheckIn u.

(** The two items of the store hold JSON text. *)
Definition both_json (ls : api.LocalStorage) : Prop :=
  (∃ users, api.timeguard_users ls = Some (Json users))
  ∧ (∃ logs, api.timeguard_logs ls = Some (Json logs)).

(** The store of a browser that has never run the program. *)
Definition first_use : api.LocalStorage := api.mkLocalStorage None None.

(** ** Basic facts *)

Lemma strict_eq_true a b : (a === b) = true ↔ a = b.
Proof. apply String.eqb_eq. Qed.

Lemma strict_eq_false a b : (a === b) = false ↔ a ≠ b.
Proof. apply String.eqb_neq. Qed.

Lemma strict_eq_refl a : (a === a) = true.
Proof. by apply strict_eq_true. Qed.

Lemma existsb_field {A} (f : A → string) (x : string) (l : list A) :
  existsb (λ u, f u === x) l = true ↔ ∃ u, In u l ∧ f u = x.
Proof.
  rewrite existsb_exists. split; intros (u & Hin & Hu); exists u; split; auto;
    by apply strict_eq_true.
Qed.

Lemma find_field_first {A} (f : A → string) (x : string) (l : list A) (u : A) :
  List.find (λ u, f u === x) l = Some u ↔ first_match (λ u, f u = x) l u.
Proof.
  unfold first_match. induction l as [|v l IH]; simpl.
  - split; [discriminate|]. intros (pre & post & Heq & _). by destruct pre.
  - destruct (f v === x) eqn:E.
    + apply strict_eq_true in E. split.
      * intros [= <-]. exists [], l. repeat split; auto.
      * intros (pre & post & Heq & Hu & Hpre). destruct pre as [|w pre].
        -- simpl in Heq. by injection Heq as ->.
        -- simpl in Heq. injection Heq as -> _.
           apply Forall_cons_1 in Hpre as [Hw _]. by destruct Hw.
    + apply strict_eq_false in E. rewrite IH. split.
      * intros (pre & post & -> & Hu & Hpre). exists (v :: pre), post.
        repeat split; auto.
      * intros (pre & post & Heq & Hu & Hpre). destruct pre as [|w pre].
        -- simpl in Heq. injection Heq as -> _. by destruct E.
        -- simpl in Heq. injection Heq as -> ->.
           apply Forall_cons_1 in Hpre as [_ Hpre]. by exists pre, post.
Qed.

Lemma find_field_none {A} (f : A → string) (x : string) (l : list A) :
  List.find (λ u, f u === x) l = None ↔ ∀ u, In u l → f u ≠ x.
Proof.
  split.
  - intros H u Hin. apply strict_eq_false. by apply (find_none _ _ H).
  - intros H. induction l as [|v l IH]; simpl; [done|].
    destruct (f v === x) eqn:E.
    + apply strict_eq_true in E. destruct (H v); simpl; auto.
    + apply IH. intros u Hin. apply H. by right.
Qed.

Lemma stripPassword_sanitized u : User.password (api.stripPassword u) = None.
Proof. reflexivity. Qed.

Lemma stripPassword_without_password u : without_password (api.stripPassword u) u.
Proof. by repeat split. Qed.

(** ** Directory service: [addUser] *)

Lemma addUser_cases (newUser : User) (ls : api.LocalStorage) :
  let duplicate :=
    ∃ u, In u (stored_users ls) ∧ User.username u = User.username newUser in
  (duplicate ∧ api.addUser newUser ls = (Rejected DuplicateUsername, ls))
  ∨ (¬ duplicate
     ∧ api.addUser newUser ls
       = (Resolved (api.stripPassword newUser),
          api.set_users (stored_users ls ++ [newUser]) ls)).
Proof.
  intros duplicate.
  unfold api.addUser, mbind, api.Api_bind, api.bind, api.read_users; simpl.
  fold (stored_users ls).
  destruct (existsb _ (stored_users ls)) eqn:E.
  - left. split; [|done]. by apply existsb_field in E.
  - right. split; [|done]. intros Hdup.
    apply (existsb_field User.username) in Hdup. congruence.
Qed.


(** The comparison is exact: a candidate "Alice" does not collide with the
    seed user "alice", a candidate "alice" does. *)
Example addUser_seed_examples :
  let ls := api.initializeData (api.mkLocalStorage None None) in
  let candidate username :=
    User.mk "emp-9" "Alice" username (Some "pw") Employee "Checked Out" None in
  api.addUser (candidate "alice") ls = (Rejected DuplicateUsername, ls)
  ∧ fst (api.addUser (candidate "Alice") ls)
    = Resolved (api.stripPassword (candidate "Alice"))
  ∧ length (stored_users (snd (api.addUser (candidate "Alice") ls))) = 5%nat.
Proof. by vm_compute. Qed.

(** ** Authentication gate: [login] *)

Ltac unfold_api :=
  unfold api.login, api.getUsers, api.getLogs, api.addUser, api.updateUser,
         api.deleteUser, api.addLog, mbind, mret, api.Api_bind, api.Api_ret,
         api.bind, api.ret, api.throw, api.read_users, api.read_logs,
         api.write_users, api.write_logs;
  simpl.

(** [login] never writes to the store. *)
Lemma login_pure username password ls :
  snd (api.login username password ls) = ls.
Proof.
  unfold_api. destruct (List.find _ _) as [u|]; [|done].
  destruct (User.password u) as [p|]; [|done]. by destruct (p === password).
Qed.

(** What [login] answers when [u] is the first user with the given name. *)
Lemma login_first_match username password ls u :
  first_match (λ u, User.username u = username) (stored_users ls) u →
  fst (api.login username password ls)
  = if decide (User.password u = Some password)
    then Resolved (api.stripPassword u) else Rejected InvalidCredentials.
Proof.
  intros Hu. apply find_field_first in Hu. unfold_api.
  unfold stored_users in Hu. rewrite Hu.
  destruct (User.password u) as [p|]; [|by rewrite decide_False].
  destruct (p === password) eqn:E.
  - apply strict_eq_true in E as ->. by rewrite decide_True.
  - apply strict_eq_false in E. rewrite decide_False; [done|congruence].
Qed.

Lemma login_no_match username password ls :
  (∀ u, In u (stored_users ls) → User.username u ≠ username) →
  fst (api.login username password ls) = Rejected InvalidCredentials.
Proof.
  intros Hu. apply find_field_none in Hu. unfold_api.
  unfold stored_users in Hu. by rewrite Hu.
Qed.

Lemma first_match_or_none {A} (f : A → string) (x : string) (l : list A) :
  (∃ u, first_match (λ u, f u = x) l u) ∨ (∀ u, In u l → f u ≠ x).
Proof.
  destruct (List.find (λ u, f u === x) l) as [u|] eqn:E.
  - left. exists u. by apply find_field_first.
  - right. by apply find_field_none.
Qed.

Lemma first_match_unique {A} (P : A → Prop) (l : list A) (x y : A) :
  first_match P l x → first_match P l y → x = y.
Proof.
  intros (pre & post & -> & Hx & Hpre). revert y.
  induction pre as [|w pre IH]; intros y (pre' & post' & Heq & Hy & Hpre').
  - destruct pre' as [|w' pre']; simpl in Heq; [congruence|].
    injection Heq as <- _. apply Forall_cons_1 in Hpre' as [Hw _]. by destruct Hw.
  - destruct pre' as [|w' pre']; simpl in Heq.
    + injection Heq as -> _. apply Forall_cons_1 in Hpre as [Hw _]. by destruct Hw.
    + injection Heq as <- Heq. apply Forall_cons_1 in Hpre as [_ Hpre].
      apply Forall_cons_1 in Hpre' as [_ Hpre'].
      apply IH; [done|]. by exists pre', post'.
Qed.

(** C6. [login] rejects with "Invalid username or password." exactly when no
    stored user has the given username or the first stored user that has it
    does not have the given password; otherwise it resolves with that first
    user sanitized: a user with no password whose other fields are the ones
    of the stored record; and in both cases the store is the one it started
    from. *)
Theorem login_invalid_iff (username password : string) (ls : api.LocalStorage) :
  let named u := User.username u = username in
  let no_match := ∀ u, In u (stored_users ls) → ¬ named u in
  let wrong_password :=
    ∃ u, first_match named (stored_users ls) u ∧ User.password u ≠ Some password in
  (fst (api.login username password ls) = Rejected InvalidCredentials
   ↔ no_match ∨ wrong_password)
  ∧ (¬ (no_match ∨ wrong_password) ↔
     ∃ u result,
       first_match named (stored_users ls) u
       ∧ User.password u = Some password
       ∧ fst (api.login username password ls) = Resolved result
       ∧ User.password result = None
       ∧ User.id result = User.id u
       ∧ User.name result = User.name u
       ∧ User.username result = User.username u
       ∧ User.role result = User.role u
       ∧ User.status result = User.status u
       ∧ User.lastCheckIn result = User.lastCheckIn u)
  ∧ snd (api.login username password ls) = ls.
Proof.
  intros named no_match wrong_password.
  split; [|split; [|apply login_pure]].
  - split.
    + intros Hrej.
      destruct (first_match_or_none User.username username (stored_users ls))
        as [[u Hu]|Hnone]; [|by left].
      right. exists u. split; [done|]. intros Hpw.
      rewrite (login_first_match _ _ _ _ Hu), decide_True in Hrej; done.
    + intros [Hnone|(u & Hu & Hpw)].
      * by apply login_no_match.
      * by rewrite (login_first_match _ _ _ _ Hu), decide_False.
  - split.
    + intros Hok.
      destruct (first_match_or_none User.username username (stored_users ls))
        as [[u Hu]|Hnone]; [|destruct Hok; by left].
      destruct (decide (User.password u = Some password)) as [Hpw|Hpw].
      * exists u, (api.stripPassword u). split; [done|]. split; [done|]. split.
        -- by rewrite (login_first_match _ _ _ _ Hu), decide_True.
        -- apply stripPassword_without_password.
      * destruct Hok. right. by exists u.
    + intros (u & result & Hu & Hpw & Hres & _) [Hnone|(v & Hv & Hwrong)].
      * destruct Hu as (pre & post & Heq & Hnamed & _).
        apply (Hnone u); [|done]. rewrite Heq. apply in_or_app. right. by left.
      * by rewrite (first_match_unique _ _ _ _ Hv Hu) in Hwrong.
Qed.

(** The scenarios of the specification on the seed store. *)
Example login_seed_examples :
  let ls := api.initializeData (api.mkLocalStorage None None) in
  api.login "alice" "alice123" ls
  = (Resolved (User.mk "emp-1" "Alice" "alice" None Employee "Checked Out" None), ls)
  ∧ api.login "alice" "wrong" ls = (Rejected InvalidCredentials, ls)
  ∧ api.login "Alice" "alice123" ls = (Rejected InvalidCredentials, ls)
  ∧ api.login "mallory" "" ls = (Rejected InvalidCredentials, ls).
Proof. by vm_compute. Qed.

(** ** Directory service: [updateUser] *)

Lemma merge_id u patch : User.id (api.merge u patch) = User.id patch.
Proof. reflexivity. Qed.

Lemma find_patched patch users :
  List.find (λ u, User.id u === User.id patch) (patched patch users)
  = option_map (λ u, api.merge u patch)
      (List.find (λ u, User.id u === User.id patch) users).
Proof.
  induction users as [|v users IH]; simpl; [done|].
  destruct (User.id v === User.id patch) eqn:E.
  - by rewrite merge_id, strict_eq_refl.
  - by rewrite E.
Qed.

Lemma updateUser_missing patch ls :
  (∀ u, In u (stored_users ls) → User.id u ≠ User.id patch) →
  api.updateUser patch ls = (Rejected UserNotFound, ls).
Proof.
  intros Hnone. unfold_api. fold (stored_users ls).
  destruct (existsb _ (stored_users ls)) eqn:E; [|done].
  apply (existsb_field User.id) in E as (u & Hin & Hid). by destruct (Hnone u).
Qed.

Lemma updateUser_found patch ls u :
  first_match (λ u, User.id u = User.id patch) (stored_users ls) u →
  api.updateUser patch ls
  = (Resolved (api.stripPassword (api.merge u patch)),
     api.set_users (patched patch (stored_users ls)) ls).
Proof.
  intros Hu. unfold_api. fold (stored_users ls).
  fold (patched patch (stored_users ls)).
  assert (existsb (λ u, User.id u === User.id patch) (stored_users ls) = true) as ->.
  { apply existsb_field. exists u.
    destruct Hu as (pre & post & -> & Hid & _).
    split; [|done]. apply in_or_app. right. by left. }
  simpl. rewrite find_patched.
  apply find_field_first in Hu. by rewrite Hu.
Qed.

Lemma updateUser_resolves patch ls u :
  In u (stored_users ls) → User.id u = User.id patch →
  ∃ v, first_match (λ u, User.id u = User.id patch) (stored_users ls) v.
Proof.
  intros Hin Hid.
  destruct (first_match_or_none User.id (User.id patch) (stored_users ls))
    as [Hv|Hnone]; [done|]. by destruct (Hnone u).
Qed.

Lemma stored_users_set_users us ls : stored_users (api.set_users us ls) = us.
Proof. reflexivity. Qed.

Lemma patched_lookup patch users (i : nat) u :
  users !! i = Some u →
  patched patch users !! i
  = Some (if User.id u === User.id patch then api.merge u patch else u).
Proof. intros Hi. unfold patched. by rewrite list_lookup_fmap, Hi. Qed.

(** C4. When the patch carries the identifier of a stored user whose
    password is [P], [updateUser] succeeds and the record stored in that
    user's place keeps [P] if the patch has no password or an empty one, has
    password [Q] if the patch has the non-empty password [Q], and has every
    other field of the patch. *)
Theorem updateUser_password_retention
    (patch : User) (ls : api.LocalStorage) (i : nat) (u : User) :
  stored_users ls !! i = Some u →
  User.id u = User.id patch →
  ∃ saved u',
    fst (api.updateUser patch ls) = Resolved saved
    ∧ stored_users (snd (api.updateUser patch ls)) !! i = Some u'
    ∧ (User.password patch = None ∨ User.password patch = Some "" →
       User.password u' = User.password u)
    ∧ (∀ Q, User.password patch = Some Q → Q ≠ "" → User.password u' = Some Q)
    ∧ User.id u' = User.id patch
    ∧ User.name u' = User.name patch
    ∧ User.username u' = User.username patch
    ∧ User.role u' = User.role patch
    ∧ User.status u' = User.status patch
    ∧ User.lastCheckIn u' = User.lastCheckIn patch.
Proof.
  intros Hi Hid.
  destruct (updateUser_resolves patch ls u) as [v Hv]; [|done|].
  { apply list_elem_of_In. by apply list_elem_of_lookup_2 in Hi. }
  rewrite (updateUser_found _ _ _ Hv). simpl.
  exists (api.stripPassword (api.merge v patch)), (api.merge u patch).
  split; [done|]. split.
  { rewrite stored_users_set_users, (patched_lookup _ _ _ _ Hi).
    apply strict_eq_true in Hid. by rewrite Hid. }
  repeat split.
  - intros [Hp|Hp]; unfold api.merge; by rewrite Hp.
  - intros Q Hp HQ. unfold api.merge. rewrite Hp. simpl.
    apply String.eqb_neq in HQ. by rewrite HQ.
Qed.

(** On the seed store: a patch of Alice without a password, with an empty
    one, and with a new one. *)
Lemma updateUser_password_retention_witness :
  let ls := api.initializeData (api.mkLocalStorage None None) in
  let patch pw :=
    User.mk "emp-1" "Alice L." "alice" pw Employee "Checked In" (Some 1700000000000) in
  (∃ saved u',
     fst (api.updateUser (patch None) ls) = Resolved saved
     ∧ stored_users (snd (api.updateUser (patch None) ls)) !! 1%nat = Some u'
     ∧ (User.password (patch None) = None ∨ User.password (patch None) = Some "" →
        User.password u' = Some "alice123")
     ∧ (∀ Q, User.password (patch None) = Some Q → Q ≠ "" →
        User.password u' = Some Q)
     ∧ User.id u' = "emp-1"
     ∧ User.name u' = "Alice L."
     ∧ User.username u' = "alice"
     ∧ User.role u' = Employee
     ∧ User.status u' = "Checked In"
     ∧ User.lastCheckIn u' = Some 1700000000000)
  ∧ stored_users (snd (api.updateUser (patch (Some "")) ls)) !! 1%nat
    = Some (User.mk "emp-1" "Alice L." "alice" (Some "alice123") Employee
                    "Checked In" (Some 1700000000000))
  ∧ stored_users (snd (api.updateUser (patch (Some "s3cret")) ls)) !! 1%nat
    = Some (User.mk "emp-1" "Alice L." "alice" (Some "s3cret") Employee
                    "Checked In" (Some 1700000000000)).
Proof.
  intros ls patch. split; [|split; reflexivity].
  apply (updateUser_password_retention (patch None) ls 1%nat
           (User.mk "emp-1" "Alice" "alice" (Some "alice123") Employee
                    "Checked Out" None)); reflexivity.
Defined.

(** ** Sanitization *)

Lemma updateUser_cases patch ls :
  (∃ u, api.updateUser patch ls
        = (Resolved (api.stripPassword (api.merge u patch)),
           api.set_users (patched patch (stored_users ls)) ls))
  ∨ api.updateUser patch ls = (Rejected UserNotFound, ls).
Proof.
  destruct (first_match_or_none User.id (User.id patch) (stored_users ls))
    as [[u Hu]|Hnone].
  - left. exists u. by apply updateUser_found.
  - right. by apply updateUser_missing.
Qed.

(** C5. Whatever the store and the arguments, the user [login], [addUser]
    and [updateUser] resolve with, and every user of the list [getUsers]
    resolves with, has no password. *)
Theorem returned_users_sanitized
    (ls : api.LocalStorage) (username password : string) (newUser updatedUser : User) :
  sanitized (fst (api.login username password ls))
  ∧ sanitized_all (fst (api.getUsers ls))
  ∧ sanitized (fst (api.addUser newUser ls))
  ∧ sanitized (fst (api.updateUser updatedUser ls)).
Proof.
  repeat split.
  - destruct (first_match_or_none User.username username (stored_users ls))
      as [[u Hu]|Hnone].
    + rewrite (login_first_match _ _ _ _ Hu). by case_decide.
    + by rewrite login_no_match.
  - unfold_api. apply List.Forall_forall. intros u Hin.
    apply in_map_iff in Hin as (v & <- & _). apply stripPassword_sanitized.
  - destruct (addUser_cases newUser ls) as [[_ ->]|[_ ->]]; done.
  - destruct (updateUser_cases updatedUser ls) as [[u ->]| ->]; done.
Qed.

(** The four operations do succeed, on the seed store for instance, and
    the stored records keep their passwords. *)
Example returned_users_sanitized_seed :
  let ls := api.initializeData (api.mkLocalStorage None None) in
  let carol :=
    User.mk "emp-4" "Carol" "carol" (Some "carol123") Employee "Checked Out" None in
  let bob :=
    User.mk "emp-2" "Robert" "bob" (Some "hunter2") Employee "Checked Out" None in
  fst (api.login "bob" "bob123" ls)
  = Resolved (User.mk "emp-2" "Bob" "bob" None Employee "Checked Out" None)
  ∧ fst (api.getUsers ls) = Resolved (List.map api.stripPassword api.initialUsers)
  ∧ fst (api.addUser carol ls)
    = Resolved (User.mk "emp-4" "Carol" "carol" None Employee "Checked Out" None)
  ∧ fst (api.updateUser bob ls)
    = Resolved (User.mk "emp-2" "Robert" "bob" None Employee "Checked Out" None)
  ∧ List.map User.password (stored_users (snd (api.updateUser bob ls)))
    = [Some "admin"; Some "alice123"; Some "hunter2"; Some "charlie123"].
Proof. by vm_compute. Qed.

(** ** Audit log service *)

Lemma addLog_eq now newLog ls :
  api.addLog now newLog ls
  = (Resolved (logWithId (now, newLog)),
     api.set_logs (logWithId (now, newLog) :: stored_logs ls) ls).
Proof. reflexivity. Qed.

Lemma getLogs_eq ls : api.getLogs ls = (Resolved (stored_logs ls), ls).
Proof. reflexivity. Qed.

Lemma stored_logs_set_logs logs ls : stored_logs (api.set_logs logs ls) = logs.
Proof. reflexivity. Qed.

Lemma stored_logs_appendLogs calls ls :
  stored_logs (appendLogs calls ls)
  = reverse (logWithId <$> calls) ++ stored_logs ls.
Proof.
  revert ls. induction calls as [|[now newLog] calls IH]; intros ls; [done|].
  change (appendLogs ((now, newLog) :: calls) ls)
    with (appendLogs calls (snd (api.addLog now newLog ls))).
  rewrite IH, addLog_eq. simpl snd.
  rewrite stored_logs_set_logs, fmap_cons, reverse_cons, <- app_assoc. done.
Qed.

#[local] Instance log_id_inj : Inj (=) (=) (λ now : Z, "log-" +:+ pretty now).
Proof. intros x y H. simpl in H. injection H as H. by apply (inj pretty). Qed.

Lemma log_ids calls :
  LogEntry.id <$> reverse (logWithId <$> calls)
  = reverse ((λ now : Z, "log-" +:+ pretty now) <$> calls.*1).
Proof. rewrite fmap_reverse, <- !list_fmap_compose. done. Qed.

(** Two calls that read the same clock value store the same identifier. *)
Lemma appendLogs_same_clock_same_id :
  let entry ip := NewLog.mk "emp-1" "Alice" 1700000000000 "in" ip None None in
  let calls := [(1700000000500, entry "10.0.0.1"); (1700000000500, entry "10.0.0.2")] in
  let ls := appendLogs calls (api.mkLocalStorage None (Some (Json []))) in
  fst (api.getLogs ls) = Resolved (stored_logs ls)
  ∧ length (stored_logs ls) = 2%nat
  ∧ LogEntry.id <$> stored_logs ls = ["log-1700000000500"; "log-1700000000500"]
  ∧ ¬ NoDup (LogEntry.id <$> stored_logs ls).
Proof.
  intros entry calls ls. repeat split.
  intros Hnd. vm_compute in Hnd.
  apply NoDup_cons in Hnd as [Hnotin _]. apply Hnotin. by left.
Qed.

(** C2, amended. After [N] calls of [addLog] on an empty log, [getLogs]
    resolves with exactly [N] entries, the entry of the last call first and
    that of the first call last; the entry of a call has the identifier
    "log-" followed by the clock reading of the call, so the identifiers are
    pairwise distinct exactly when the clock readings are. *)
Theorem getLogs_after_appendLogs (calls : list (Z * NewLog)) (ls : api.LocalStorage) :
  stored_logs ls = [] →
  let logs := reverse (logWithId <$> calls) in
  api.getLogs (appendLogs calls ls) = (Resolved logs, appendLogs calls ls)
  ∧ length logs = length calls
  ∧ (∀ i call, calls !! i = Some call →
       fst (api.addLog call.1 call.2 (appendLogs (take i calls) ls))
         = Resolved (logWithId call)
       ∧ logs !! (length calls - S i)%nat = Some (logWithId call))
  ∧ (NoDup (LogEntry.id <$> logs) ↔ NoDup calls.*1).
Proof.
  intros Hempty logs. split; [|split; [|split]].
  - rewrite getLogs_eq, stored_logs_appendLogs, Hempty, app_nil_r. done.
  - unfold logs. by rewrite length_reverse, length_fmap.
  - intros i call Hcall. split.
    + rewrite addLog_eq. by destruct call.
    + unfold logs. apply reverse_lookup_Some. rewrite length_fmap.
      pose proof (lookup_lt_Some _ _ _ Hcall) as Hlt. split; [|lia].
      replace (length calls - S (length calls - S i))%nat with i by lia.
      by rewrite list_lookup_fmap, Hcall.
  - unfold logs. rewrite log_ids, reverse_Permutation. split.
    + apply (NoDup_fmap_1 (λ now : Z, "log-" +:+ pretty now)).
    + apply (NoDup_fmap_2 (λ now : Z, "log-" +:+ pretty now)).
Qed.

Lemma getLogs_after_appendLogs_witness :
  let entry kind := NewLog.mk "emp-1" "Alice" 1700000000000 kind "10.0.0.1" None None in
  let calls := [(1700000000500, entry "in"); (1700000060500, entry "out");
                (1700000120500, entry "in")] in
  let ls := api.mkLocalStorage None None in
  let logs := reverse (logWithId <$> calls) in
  api.getLogs (appendLogs calls ls) = (Resolved logs, appendLogs calls ls)
  ∧ length logs = 3%nat
  ∧ (∀ i call, calls !! i = Some call →
       fst (api.addLog call.1 call.2 (appendLogs (take i calls) ls))
         = Resolved (logWithId call)
       ∧ logs !! (3 - S i)%nat = Some (logWithId call))
  ∧ (NoDup (LogEntry.id <$> logs) ↔ NoDup calls.*1).
Proof.
  intros entry calls ls.
  apply (getLogs_after_appendLogs calls ls). reflexivity.
Defined.

(** ** Persistence store: bootstrap *)

Lemma initialUsers_roles :
  List.map User.role api.initialUsers = [Admin; Employee; Employee; Employee].
Proof. reflexivity. Qed.

Lemma initializeData_both_json ls : both_json (api.initializeData ls).
Proof.
  destruct ls as [[[|users]|] [[|logs]|]]; split; by eexists.
Qed.

Lemma initializeData_on_both_json ls : both_json ls → api.initializeData ls = ls.
Proof.
  intros [[users Husers] [logs Hlogs]]. destruct ls as [users_item logs_item].
  simpl in *. by subst.
Qed.

Lemma call_both_json c ls : both_json ls → both_json (call c ls).
Proof.
  intros Hls. destruct c as [un pw| | |newUser|patch|userId|now newLog]; simpl;
    try done.
  - by rewrite login_pure.
  - destruct (addUser_cases newUser ls) as [[_ ->]|[_ ->]]; [done|].
    split; [by eexists|apply Hls].
  - destruct (updateUser_cases patch ls) as [[u ->]| ->]; [|done].
    split; [by eexists|apply Hls].
  - split; [by eexists|apply Hls].
  - split; [apply Hls|by eexists].
Qed.

Lemma calls_both_json cs ls : both_json ls → both_json (calls cs ls).
Proof.
  revert ls. induction cs as [|c cs IH]; intros ls Hls; [done|].
  change (calls (c :: cs) ls) with (calls cs (call c ls)).
  by apply IH, call_both_json.
Qed.

(** C9. On first use, when the store has neither key, [initializeData]
    stores the seed Directory, exactly one Admin and three Employees, all
    "Checked Out" and with [lastCheckIn] null, and an empty Log collection.
    A collection is seeded only when its key is absent: an item that holds a
    collection is left as it is.  Whatever the store was, after
    [initializeData] the two items hold JSON text, they still do after any
    calls of api.ts, and on such a store [initializeData] changes nothing;
    so running it again, at any later load of the module, changes nothing. *)
Theorem initializeData_bootstrap
    (cs : list ApiCall) (users : option (list User)) (logs : option (list LogEntry)) :
  api.initializeData first_use
  = api.mkLocalStorage (Some (Json api.initialUsers)) (Some (Json []))
  ∧ (length (List.filter (λ u, bool_decide (User.role u = Admin)) api.initialUsers) = 1%nat
     ∧ length (List.filter (λ u, bool_decide (User.role u = Employee)) api.initialUsers) = 3%nat
     ∧ length api.initialUsers = 4%nat
     ∧ Forall (λ u, User.status u = "Checked Out" ∧ User.lastCheckIn u = None)
              api.initialUsers)
  ∧ api.initializeData (api.mkLocalStorage (Json <$> users) (Json <$> logs))
    = api.mkLocalStorage (Some (Json (default api.initialUsers users)))
                         (Some (Json (default [] logs)))
  ∧ (∀ ls, both_json (api.initializeData ls)
           ∧ api.initializeData (api.initializeData ls) = api.initializeData ls)
  ∧ (∀ ls, both_json ls →
           both_json (calls cs ls)
           ∧ api.initializeData (calls cs ls) = calls cs ls)
  ∧ api.initializeData (calls cs (api.initializeData first_use))
    = calls cs (api.initializeData first_use).
Proof.
  split; [done|]. split.
  { repeat split; try done. by repeat constructor. }
  split; [by destruct users, logs|]. split; [|split].
  - intros ls. split; [apply initializeData_both_json|].
    apply initializeData_on_both_json, initializeData_both_json.
  - intros ls Hls. split; [by apply calls_both_json|].
    by apply initializeData_on_both_json, calls_both_json.
  - apply initializeData_on_both_json, calls_both_json, initializeData_both_json.
Qed.

(** The store after some use: one user added, one entry logged, and the
    module loaded again. *)
Example initializeData_again :
  let dave := User.mk "emp-4" "Dave" "dave" (Some "d1") Employee "Checked Out" None in
  let entry := NewLog.mk "emp-4" "Dave" 1700000000000 "in" "203.0.113.7" None None in
  let ls :=
    calls [CallAddUser dave; CallAddLog 1700000000600 entry]
          (api.initializeData first_use) in
  length (stored_users ls) = 5%nat
  ∧ length (stored_logs ls) = 1%nat
  ∧ api.initializeData ls = ls.
Proof. by vm_compute. Qed.

(** ** Session revalidation *)

Lemma getUsers_eq ls :
  api.getUsers ls = (Resolved (List.map api.stripPassword (stored_users ls)), ls).
Proof. reflexivity. Qed.

(** C7. When the component starts with a stored session identity, the
    identity becomes the logged-in user if and only if the freshly loaded
    Directory has a user with its identifier, and then the stored session is
    kept; when there is none, nobody is logged in and the session item is
    removed.  No error is reported either way, and [localStorage] is not
    written. *)
Theorem loadData_revalidates_session (w : App.World) (parsedUser : User) :
  App.timeguard_session w = Some (Json parsedUser) →
  App.loggedInUser (App.state w) = None →
  let w' := App.loadData w in
  let present :=
    ∃ u, In u (App.users (App.state w')) ∧ User.id u = User.id parsedUser in
  App.users (App.state w')
  = List.map api.stripPassword (stored_users (App.localStorage w))
  ∧ (App.loggedInUser (App.state w') = Some parsedUser ↔ present)
  ∧ (present → App.timeguard_session w' = Some (Json parsedUser))
  ∧ (¬ present →
     App.loggedInUser (App.state w') = None ∧ App.timeguard_session w' = None)
  ∧ App.loginError (App.state w') = App.loginError (App.state w)
  ∧ App.isLoading (App.state w') = false
  ∧ App.localStorage w' = App.localStorage w.
Proof.
  intros Hsession Hnone w' present.
  assert (Hpresent : present ↔
    existsb (λ u, User.id u === User.id parsedUser)
            (List.map api.stripPassword (stored_users (App.localStorage w))) = true).
  { unfold present, w', App.loadData. rewrite getUsers_eq, getLogs_eq, Hsession.
    rewrite (existsb_field User.id). by destruct (existsb _ _). }
  unfold w', App.loadData in *. rewrite getUsers_eq, getLogs_eq, Hsession in *.
  destruct (existsb _ _) eqn:E; simpl in *.
  - assert present by by apply Hpresent. repeat split; try done.
  - assert (¬ present) by (rewrite Hpresent; congruence).
    rewrite Hnone. repeat split; try done.
Qed.

Lemma loadData_revalidates_session_witness :
  let alice := User.mk "emp-1" "Alice" "alice" None Employee "Checked Out" None in
  let w :=
    App.mkWorld App.initialState (Some (Json alice))
                (api.initializeData (api.mkLocalStorage None None)) in
  let w' := App.loadData w in
  let present := ∃ u, In u (App.users (App.state w')) ∧ User.id u = "emp-1" in
  App.users (App.state w')
  = List.map api.stripPassword (stored_users (App.localStorage w))
  ∧ (App.loggedInUser (App.state w') = Some alice ↔ present)
  ∧ (present → App.timeguard_session w' = Some (Json alice))
  ∧ (¬ present →
     App.loggedInUser (App.state w') = None ∧ App.timeguard_session w' = None)
  ∧ App.loginError (App.state w') = None
  ∧ App.isLoading (App.state w') = false
  ∧ App.localStorage w' = App.localStorage w.
Proof.
  intros alice w. apply (loadData_revalidates_session w alice); reflexivity.
Defined.

(** The scenario of the specification: Alice logs in, an administrator
    deletes her, and the next start of the application discards her session;
    without the deletion it is restored. *)
Example loadData_after_deleteUser :
  let seeded :=
    App.mkWorld App.initialState None
                (api.initializeData (api.mkLocalStorage None None)) in
  let logged := App.handleLogin "alice" "alice123" seeded in
  let restart w :=
    App.loadData (App.mkWorld App.initialState (App.timeguard_session w)
                              (App.localStorage w)) in
  let deleted :=
    App.mkWorld (App.state logged) (App.timeguard_session logged)
                (snd (api.deleteUser "emp-1" (App.localStorage logged))) in
  App.loggedInUser (App.state (restart logged))
  = Some (User.mk "emp-1" "Alice" "alice" None Employee "Checked Out" None)
  ∧ App.timeguard_session (restart logged) = App.timeguard_session logged
  ∧ App.loggedInUser (App.state (restart deleted)) = None
  ∧ App.timeguard_session (restart deleted) = None
  ∧ App.loginError (App.state (restart deleted)) = None.
Proof. by vm_compute. Qed.

(** ** Attendance state machine: [handleCheckIn] *)

Lemma getIpAddress_resolves fetch :
  ∃ ip, locationService.getIpAddress fetch = Resolved ip
        ∧ (ip_lookup_failed fetch → ip = "Unavailable")
        ∧ (∀ data, fetch = locationService.Response true (Some data) →
           ip = locationService.ip data).
Proof.
  destruct fetch as [|[] [data|]]; simpl; eexists; (split; [done|]);
    split; try done; congruence.
Qed.

Lemma newLog_of_type env u ip :
  NewLog.type (App.newLog_of env u ip)
  = App.logType_of (App.newStatus_of (User.status u)).
Proof.
  unfold App.newLog_of. by destruct (locationService.getGeolocation _).
Qed.

Lemma getGeolocation_failed geolocation :
  geolocation_failed geolocation →
  ∃ error, locationService.getGeolocation geolocation = Rejected error
           ∧ message error ≠ "".
Proof.
  destruct geolocation as [| |code]; simpl; [|done|]; intros _.
  - by eexists.
  - eexists. split; [done|]. simpl. by repeat case_match.
Qed.

Lemma newLog_of_context env u ip :
  NewLog.ip (App.newLog_of env u ip) = ip
  ∧ NewLog.userId (App.newLog_of env u ip) = User.id u
  ∧ NewLog.userName (App.newLog_of env u ip) = User.name u
  ∧ NewLog.timestamp (App.newLog_of env u ip) = App.logDate env
  ∧ match locationService.getGeolocation (App.geolocation env) with
    | Resolved location =>
        NewLog.location (App.newLog_of env u ip) = Some location
        ∧ NewLog.locationError (App.newLog_of env u ip) = None
    | Rejected error =>
        NewLog.location (App.newLog_of env u ip) = None
        ∧ NewLog.locationError (App.newLog_of env u ip) = Some (message error)
    end.
Proof.
  unfold App.newLog_of. by destruct (locationService.getGeolocation _).
Qed.

Lemma newStatus_of_cases status :
  App.newStatus_of status
  = if decide (status = "Checked In") then "Checked Out" else "Checked In".
Proof.
  unfold App.newStatus_of. destruct (status === "Checked In") eqn:E.
  - apply strict_eq_true in E. by rewrite decide_True.
  - apply strict_eq_false in E. by rewrite decide_False.
Qed.

Lemma logType_of_newStatus_of status :
  App.logType_of (App.newStatus_of status)
  = if decide (status = "Checked In") then "out" else "in".
Proof. rewrite newStatus_of_cases. by case_decide. Qed.

(** *** A run that passes the guard *)

Section GuardedRun.

Context (env : App.CheckInEnv) (w : App.World) (u : User).
Hypothesis Hauth : authenticated w u.

(** A run that passes the guard, step by step: the entry is stored first;
    then either no stored user has the identifier of the session and the run
    fails with the entry stored, or the stored users are patched and the run
    succeeds. *)
Lemma handleCheckIn_authenticated :
  ∃ ip,
    locationService.getIpAddress (App.fetch env) = Resolved ip ∧
    let createdLog := logWithId (App.logNow env, App.newLog_of env u ip) in
    let patch := App.updatedUser_of env u in
    let ls := App.localStorage w in
    let ls1 := api.set_logs (createdLog :: stored_logs ls) ls in
    ((∀ v, In v (stored_users ls) → User.id v ≠ User.id u)
     ∧ App.handleCheckIn env w
       = (App.mkCheckInResult false "Check-in process failed. Please try again.",
          failed_world w ls1))
    ∨ (∃ v, first_match (λ v, User.id v = User.id u) (stored_users ls) v
         ∧ App.handleCheckIn env w
           = (App.mkCheckInResult true
                ("Successfully Checked "
                 +:+ App.logType_of (App.newStatus_of (User.status u)) +:+ "!"),
              succeeded_world w createdLog (api.stripPassword (api.merge v patch))
                (api.set_users (patched patch (stored_users ls)) ls1))).
Proof.
  destruct Hauth as [Hproc Huser].
  destruct (getIpAddress_resolves (App.fetch env)) as (ip & Hip & _).
  exists ip. split; [done|]. intros createdLog patch ls ls1.
  unfold App.handleCheckIn. rewrite Hproc, Huser, Hip, addLog_eq.
  fold ls createdLog ls1 patch.
  assert (Hsame : stored_users ls1 = stored_users ls) by done.
  destruct (first_match_or_none User.id (User.id patch) (stored_users ls1))
    as [[v Hv]|Hnone].
  - right. exists v. rewrite (updateUser_found _ _ _ Hv), Hsame.
    rewrite Hsame in Hv. split; [done|]. by rewrite newLog_of_type.
  - left. rewrite (updateUser_missing _ _ Hnone). rewrite Hsame in Hnone.
    split; [done|]. unfold failed_world. by rewrite Huser.
Qed.

(** Whatever happens after the guard, the entry is the new head of the
    stored log. *)
Lemma handleCheckIn_appends :
  ∃ ip, locationService.getIpAddress (App.fetch env) = Resolved ip
        ∧ stored_logs (App.localStorage (snd (App.handleCheckIn env w)))
          = logWithId (App.logNow env, App.newLog_of env u ip)
            :: stored_logs (App.localStorage w).
Proof.
  destruct handleCheckIn_authenticated
    as (ip & Hip & [[_ ->]|(v & _ & ->)]); by exists ip.
Qed.

(** What a run that passed the guard leaves in the Directory: every stored
    record with the identifier of the session has the status and the
    [lastCheckIn] of the patch.  (When there is no such record the run
    fails and the Directory is untouched.) *)
Lemma handleCheckIn_stored_users (i : nat) v :
  stored_users (App.localStorage w) !! i = Some v →
  User.id v = User.id u →
  stored_users (App.localStorage (snd (App.handleCheckIn env w))) !! i
  = Some (api.merge v (App.updatedUser_of env u)).
Proof.
  intros Hi Hid.
  destruct handleCheckIn_authenticated
    as (ip & Hip & [[Hnone _]|(v' & _ & ->)]).
  - destruct (Hnone v); [|done].
    apply list_elem_of_In. by apply list_elem_of_lookup_2 in Hi.
  - simpl. rewrite stored_users_set_users, (patched_lookup _ _ _ _ Hi).
    change (User.id (App.updatedUser_of env u)) with (User.id u).
    apply strict_eq_true in Hid. by rewrite Hid.
Qed.

(** What a successful run leaves in the session. *)
Lemma handleCheckIn_success :
  App.success (fst (App.handleCheckIn env w)) = true →
  ∃ v, first_match (λ v, User.id v = User.id u) (stored_users (App.localStorage w)) v
       ∧ App.loggedInUser (App.state (snd (App.handleCheckIn env w)))
         = Some (api.stripPassword (api.merge v (App.updatedUser_of env u)))
       ∧ App.timeguard_session (snd (App.handleCheckIn env w))
         = Some (Json (api.stripPassword (api.merge v (App.updatedUser_of env u))))
       ∧ App.isProcessing (App.state (snd (App.handleCheckIn env w))) = false
       ∧ App.result_message (fst (App.handleCheckIn env w))
         = "Successfully Checked "
           +:+ App.logType_of (App.newStatus_of (User.status u)) +:+ "!".
Proof.
  intros Hok.
  destruct handleCheckIn_authenticated
    as (ip & Hip & [[_ Hrun]|(v & Hv & Hrun)]); rewrite Hrun in *; [done|].
  by exists v.
Qed.

End GuardedRun.

(** The part of a guarded run that does not depend on the collaborators:
    the run succeeds exactly when a stored user has the identifier of the
    session identity, and then publishes the updated identity. *)
Lemma handleCheckIn_outcome env w u :
  authenticated w u →
  let run := App.handleCheckIn env w in
  (App.success (fst run) = true
   ↔ ∃ v, In v (stored_users (App.localStorage w)) ∧ User.id v = User.id u)
  ∧ (App.success (fst run) = true →
     fst run
     = App.mkCheckInResult true
         ("Successfully Checked "
          +:+ App.logType_of (App.newStatus_of (User.status u)) +:+ "!")
     ∧ App.loggedInUser (App.state (snd run))
       = Some (api.stripPassword (App.updatedUser_of env u))
     ∧ App.timeguard_session (snd run)
       = Some (Json (api.stripPassword (App.updatedUser_of env u)))
     ∧ App.users (App.state (snd run))
       = List.map (λ x, if User.id x === User.id u
                        then api.stripPassword (App.updatedUser_of env u) else x)
                  (App.users (App.state w)))
  ∧ (App.success (fst run) = false →
     fst run = App.mkCheckInResult false "Check-in process failed. Please try again."
     ∧ App.loggedInUser (App.state (snd run)) = Some u
     ∧ App.timeguard_session (snd run) = App.timeguard_session w
     ∧ App.users (App.state (snd run)) = App.users (App.state w))
  ∧ stored_users (App.localStorage (snd run))
    = (if App.success (fst run)
       then patched (App.updatedUser_of env u) (stored_users (App.localStorage w))
       else stored_users (App.localStorage w)).
Proof.
  intros Hauth run. unfold run.
  destruct (handleCheckIn_authenticated env w u Hauth)
    as (ip & _ & [[Hnone ->]|(v & Hv & ->)]); simpl.
  - split; [|split; [done|split]].
    + split; [done|]. intros (v & Hin & Hid). by destruct (Hnone v).
    + intros _. destruct Hauth as [_ Hu]. by rewrite Hu.
    + done.
  - split; [|split; [|split]]; try done.
    split; [|done]. intros _. exists v.
    destruct Hv as (pre & post & -> & Hid & _). split; [|done].
    apply in_or_app. right. by left.
Qed.

(** C8. In every run of [handleCheckIn] that passes the guard, an entry is
    put at the head of the stored log, whether or not the later update of
    the user succeeds.  If the IP lookup failed the entry has the address
    "Unavailable"; if the geolocation failed the entry has no location and
    has the reason of the failure as its [locationError]; if the
    geolocation succeeded the entry has the position and no
    [locationError].  A failure of a collaborator does not abort the run:
    the run succeeds exactly when a stored user has the identifier of the
    session identity, a successful run publishes the session identity with
    the new status and writes that status to the stored records of the
    user, and the result, the logged-in user, the session item, the [users]
    hook and the stored users are the same whatever the two collaborators
    did. *)
Theorem handleCheckIn_collaborators_degrade
    (env : App.CheckInEnv) (w : App.World) (u : User) :
  authenticated w u →
  let w' := snd (App.handleCheckIn env w) in
  (∃ entry,
     stored_logs (App.localStorage w') = entry :: stored_logs (App.localStorage w)
     ∧ LogEntry.userId entry = User.id u
     ∧ (ip_lookup_failed (App.fetch env) → LogEntry.ip entry = "Unavailable")
     ∧ (geolocation_failed (App.geolocation env) →
        ∃ error,
          locationService.getGeolocation (App.geolocation env) = Rejected error
          ∧ LogEntry.location entry = None
          ∧ LogEntry.locationError entry = Some (message error))
     ∧ (∀ location,
          locationService.getGeolocation (App.geolocation env) = Resolved location →
          LogEntry.location entry = Some location
          ∧ LogEntry.locationError entry = None))
  ∧ (App.success (fst (App.handleCheckIn env w)) = true
     ↔ ∃ v, In v (stored_users (App.localStorage w)) ∧ User.id v = User.id u)
  ∧ (App.success (fst (App.handleCheckIn env w)) = true →
     ∃ u',
       App.loggedInUser (App.state w') = Some u'
       ∧ App.timeguard_session w' = Some (Json u')
       ∧ User.id u' = User.id u
       ∧ User.status u'
         = (if decide (User.status u = "Checked In")
            then "Checked Out" else "Checked In")
       ∧ ∀ (i : nat) v,
           stored_users (App.localStorage w) !! i = Some v → User.id v = User.id u →
           ∃ v', stored_users (App.localStorage w') !! i = Some v'
                 ∧ User.status v' = User.status u')
  ∧ (∀ fetch' geolocation',
       let run' :=
         App.handleCheckIn
           (App.mkCheckInEnv fetch' geolocation' (App.logDate env) (App.logNow env)
                             (App.checkInDate env)) w in
       fst run' = fst (App.handleCheckIn env w)
       ∧ App.loggedInUser (App.state (snd run')) = App.loggedInUser (App.state w')
       ∧ App.timeguard_session (snd run') = App.timeguard_session w'
       ∧ App.users (App.state (snd run')) = App.users (App.state w')
       ∧ stored_users (App.localStorage (snd run'))
         = stored_users (App.localStorage w')).
Proof.
  intros Hauth w'.
  destruct (handleCheckIn_outcome env w u Hauth) as (Hiff & Hok & Hko & Husers).
  split; [|split; [exact Hiff|split]].
  - destruct (handleCheckIn_appends env w u Hauth) as (ip & Hip & Hlogs).
    eexists. split; [exact Hlogs|]. simpl.
    destruct (newLog_of_context env u ip) as (Hi & Hu & _ & _ & Hgeo).
    split; [done|]. split; [|split].
    + intros Hfailed. rewrite Hi.
      destruct (getIpAddress_resolves (App.fetch env)) as (ip' & Hip' & Hun & _).
      rewrite Hip in Hip'. injection Hip' as ->. by apply Hun.
    + intros Hfailed.
      destruct (getGeolocation_failed _ Hfailed) as (error & Herr & _).
      exists error. by rewrite Herr in *.
    + intros location Hloc. by rewrite Hloc in Hgeo.
  - intros Hsuccess. destruct (Hok Hsuccess) as (_ & Hlogged & Hsession & _).
    exists (api.stripPassword (App.updatedUser_of env u)).
    split; [done|]. split; [done|]. split; [done|].
    split; [apply newStatus_of_cases|].
    intros i v Hi Hid. eexists. split; [by apply handleCheckIn_stored_users|done].
  - intros fetch' geolocation' run'.
    destruct (handleCheckIn_outcome
                (App.mkCheckInEnv fetch' geolocation' (App.logDate env)
                                  (App.logNow env) (App.checkInDate env))
                w u Hauth) as (Hiff' & Hok' & Hko' & Husers').
    fold run' in Hiff', Hok', Hko', Husers'. unfold w'. rewrite Husers, Husers'.
    destruct (App.success (fst (App.handleCheckIn env w))) eqn:E.
    + assert (Hsuccess : App.success (fst run') = true) by by apply Hiff', Hiff.
      rewrite Hsuccess.
      destruct (Hok eq_refl) as (-> & -> & -> & ->).
      by destruct (Hok' Hsuccess) as (-> & -> & -> & ->).
    + assert (Hfailure : App.success (fst run') = false).
      { destruct (App.success (fst run')); [|done].
        pose proof (proj2 Hiff (proj1 Hiff' eq_refl)). discriminate. }
      rewrite Hfailure.
      destruct (Hko eq_refl) as (-> & -> & -> & ->).
      by destruct (Hko' Hfailure) as (-> & -> & -> & ->).
Qed.

Lemma handleCheckIn_collaborators_degrade_witness :
  let alice := User.mk "emp-1" "Alice" "alice" None Employee "Checked Out" None in
  let w :=
    App.mkWorld (App.mkState (Some alice) [] [] false false None)
                (Some (Json alice))
                (api.initializeData (api.mkLocalStorage None None)) in
  let env :=
    App.mkCheckInEnv (locationService.Response false None)
                     (locationService.PositionError 1)
                     1700000000000 1700000000600 1700000000700 in
  let w' := snd (App.handleCheckIn env w) in
  (∃ entry,
     stored_logs (App.localStorage w') = entry :: stored_logs (App.localStorage w)
     ∧ LogEntry.userId entry = "emp-1"
     ∧ (ip_lookup_failed (App.fetch env) → LogEntry.ip entry = "Unavailable")
     ∧ (geolocation_failed (App.geolocation env) →
        ∃ error,
          locationService.getGeolocation (App.geolocation env) = Rejected error
          ∧ LogEntry.location entry = None
          ∧ LogEntry.locationError entry = Some (message error))
     ∧ (∀ location,
          locationService.getGeolocation (App.geolocation env) = Resolved location →
          LogEntry.location entry = Some location
          ∧ LogEntry.locationError entry = None))
  ∧ (App.success (fst (App.handleCheckIn env w)) = true
     ↔ ∃ v, In v (stored_users (App.localStorage w)) ∧ User.id v = "emp-1")
  ∧ (App.success (fst (App.handleCheckIn env w)) = true →
     ∃ u',
       App.loggedInUser (App.state w') = Some u'
       ∧ App.timeguard_session w' = Some (Json u')
       ∧ User.id u' = "emp-1"
       ∧ User.status u' = "Checked In"
       ∧ ∀ (i : nat) v,
           stored_users (App.localStorage w) !! i = Some v → User.id v = "emp-1" →
           ∃ v', stored_users (App.localStorage w') !! i = Some v'
                 ∧ User.status v' = User.status u')
  ∧ (∀ fetch' geolocation',
       let run' :=
         App.handleCheckIn
           (App.mkCheckInEnv fetch' geolocation' 1700000000000 1700000000600
                             1700000000700) w in
       fst run' = fst (App.handleCheckIn env w)
       ∧ App.loggedInUser (App.state (snd run')) = App.loggedInUser (App.state w')
       ∧ App.timeguard_session (snd run') = App.timeguard_session w'
       ∧ App.users (App.state (snd run')) = App.users (App.state w')
       ∧ stored_users (App.localStorage (snd run'))
         = stored_users (App.localStorage w')).
Proof.
  intros alice w env.
  apply (handleCheckIn_collaborators_degrade env w alice). split; reflexivity.
Defined.

(** The same run, evaluated: both collaborators fail and the check-in still
    succeeds; and when the user is gone from the Directory the run fails but
    the entry stays in the log. *)
Example handleCheckIn_degraded_run :
  let alice := User.mk "emp-1" "Alice" "alice" None Employee "Checked Out" None in
  let seed := api.initializeData (api.mkLocalStorage None None) in
  let w ls :=
    App.mkWorld (App.mkState (Some alice) [] [] false false None)
                (Some (Json alice)) ls in
  let env :=
    App.mkCheckInEnv locationService.FetchRejected
                     (locationService.PositionError 1)
                     1700000000000 1700000000600 1700000000700 in
  let entry :=
    LogEntry.mk "log-1700000000600" "emp-1" "Alice" 1700000000000 "in"
                "Unavailable" None (Some "User denied the request for Geolocation.") in
  let gone := snd (api.deleteUser "emp-1" seed) in
  fst (App.handleCheckIn env (w seed))
  = App.mkCheckInResult true "Successfully Checked in!"
  ∧ stored_logs (App.localStorage (snd (App.handleCheckIn env (w seed)))) = [entry]
  ∧ fst (App.handleCheckIn env (w gone))
    = App.mkCheckInResult false "Check-in process failed. Please try again."
  ∧ stored_logs (App.localStorage (snd (App.handleCheckIn env (w gone)))) = [entry].
Proof. by vm_compute. Qed.

(** C10. In a run that passes the guard, a session status that is anything
    but exactly "Checked In" gives the new status "Checked In" and the event
    kind "in"; the status "Checked In", and it alone, gives "Checked Out"
    and "out".  The kind is the one of the entry put in the log, the status
    is the one written to the stored records of the user and, when the run
    succeeds, the one of the new session identity. *)
Theorem handleCheckIn_status_other_than_checked_in
    (env : App.CheckInEnv) (w : App.World) (u : User) :
  authenticated w u →
  let newStatus :=
    if decide (User.status u = "Checked In") then "Checked Out" else "Checked In" in
  let logType := if decide (User.status u = "Checked In") then "out" else "in" in
  let run := App.handleCheckIn env w in
  App.newStatus_of (User.status u) = newStatus
  ∧ App.logType_of (App.newStatus_of (User.status u)) = logType
  ∧ (∃ entry,
       stored_logs (App.localStorage (snd run))
       = entry :: stored_logs (App.localStorage w)
       ∧ LogEntry.type entry = logType)
  ∧ (∀ (i : nat) v,
       stored_users (App.localStorage w) !! i = Some v → User.id v = User.id u →
       ∃ v', stored_users (App.localStorage (snd run)) !! i = Some v'
             ∧ User.status v' = newStatus)
  ∧ (App.success (fst run) = true →
     ∃ u', App.loggedInUser (App.state (snd run)) = Some u'
           ∧ User.status u' = newStatus
           ∧ App.result_message (fst run)
             = "Successfully Checked " +:+ logType +:+ "!").
Proof.
  intros Hauth newStatus logType run.
  split; [apply newStatus_of_cases|]. split; [apply logType_of_newStatus_of|].
  split; [|split].
  - destruct (handleCheckIn_appends env w u Hauth) as (ip & _ & Hlogs).
    eexists. split; [exact Hlogs|]. simpl.
    rewrite newLog_of_type. apply logType_of_newStatus_of.
  - intros i v Hi Hid. eexists. split.
    + by apply handleCheckIn_stored_users.
    + simpl. apply newStatus_of_cases.
  - intros Hok.
    destruct (handleCheckIn_success env w u Hauth Hok) as (v & _ & Hu' & _ & _ & Hmsg).
    eexists. split; [exact Hu'|]. split; [apply newStatus_of_cases|].
    fold run in Hmsg. by rewrite Hmsg, logType_of_newStatus_of.
Qed.

Lemma handleCheckIn_status_other_than_checked_in_witness :
  let bob := User.mk "emp-2" "Bob" "bob" None Employee "On Break" None in
  let w :=
    App.mkWorld (App.mkState (Some bob) [] [] false false None)
                (Some (Json bob))
                (api.initializeData (api.mkLocalStorage None None)) in
  let env :=
    App.mkCheckInEnv
      (locationService.Response true (Some (locationService.mkIpifyData "203.0.113.7")))
      locationService.NotSupported
      1700000000000 1700000000600 1700000000700 in
  let run := App.handleCheckIn env w in
  App.newStatus_of "On Break" = "Checked In"
  ∧ App.logType_of (App.newStatus_of "On Break") = "in"
  ∧ (∃ entry,
       stored_logs (App.localStorage (snd run))
       = entry :: stored_logs (App.localStorage w)
       ∧ LogEntry.type entry = "in")
  ∧ (∀ (i : nat) v,
       stored_users (App.localStorage w) !! i = Some v → User.id v = "emp-2" →
       ∃ v', stored_users (App.localStorage (snd run)) !! i = Some v'
             ∧ User.status v' = "Checked In")
  ∧ (App.success (fst run) = true →
     ∃ u', App.loggedInUser (App.state (snd run)) = Some u'
           ∧ User.status u' = "Checked In"
           ∧ App.result_message (fst run) = "Successfully Checked in!").
Proof.
  intros bob w env.
  apply (handleCheckIn_status_other_than_checked_in env w bob). split; reflexivity.
Defined.

(** Values outside the two named states, the lower-case spelling included,
    are all taken for "not checked in". *)
Example newStatus_of_examples :
  App.newStatus_of "Checked In" = "Checked Out"
  ∧ App.newStatus_of "Checked Out" = "Checked In"
  ∧ App.newStatus_of "checked in" = "Checked In"
  ∧ App.newStatus_of "" = "Checked In"
  ∧ App.newStatus_of "On Break" = "Checked In"
  ∧ App.logType_of (App.newStatus_of "On Break") = "in"
  ∧ App.logType_of (App.newStatus_of "Checked In") = "out".
Proof. by vm_compute. Qed.

Lemma toggles_inv env w w' :
  toggles env w w' →
  ∃ u, authenticated w u
       ∧ w' = snd (App.handleCheckIn env w)
       ∧ App.success (fst (App.handleCheckIn env w)) = true.
Proof.
  intros (result & Hrun & Hok). rewrite Hrun. simpl.
  unfold App.handleCheckIn in Hrun. unfold authenticated.
  destruct (App.isProcessing (App.state w)).
  - injection Hrun as <- _. discriminate.
  - destruct (App.loggedInUser (App.state w)) as [u|].
    + by exists u.
    + injection Hrun as <- _. discriminate.
Qed.

Lemma newStatus_of_twice status :
  status = "Checked In" ∨ status = "Checked Out" →
  App.newStatus_of (App.newStatus_of status) = status.
Proof. by intros [-> | ->]. Qed.

(** One successful toggle, from the session identity [u] to [u']. *)
Lemma toggles_session env w w' :
  toggles env w w' →
  ∃ u u',
    authenticated w u ∧ authenticated w' u'
    ∧ App.timeguard_session w' = Some (Json u')
    ∧ User.id u' = User.id u
    ∧ User.status u' = App.newStatus_of (User.status u)
    ∧ User.lastCheckIn u'
      = (if User.status u' === "Checked In" then Some (App.checkInDate env)
         else User.lastCheckIn u)
    ∧ ∀ (i : nat) v,
        stored_users (App.localStorage w) !! i = Some v → User.id v = User.id u →
        ∃ v', stored_users (App.localStorage w') !! i = Some v'
              ∧ User.status v' = User.status u'
              ∧ User.lastCheckIn v' = User.lastCheckIn u'.
Proof.
  intros Htoggle.
  destruct (toggles_inv _ _ _ Htoggle) as (u & Hauth & -> & Hok).
  destruct (handleCheckIn_success env w u Hauth Hok)
    as (v & _ & Hu' & Hsession & Hproc & _).
  exists u, (api.stripPassword (api.merge v (App.updatedUser_of env u))).
  split; [done|]. split; [done|]. do 4 (split; [done|]).
  intros i v0 Hi Hid. eexists. split; [by apply handleCheckIn_stored_users|done].
Qed.

(** C1. A successful toggle of an authenticated user turns the status
    "Checked Out" into "Checked In" and "Checked In" into "Checked Out", in
    the session identity and in the stored records of the user; the new
    [lastCheckIn] is the date read for it in this run when the new status
    is "Checked In" and is the previous [lastCheckIn] otherwise; and a
    second successful toggle right after gives back the status the user
    started with. *)
Theorem toggle_complement (env : App.CheckInEnv) (w w' : App.World) :
  toggles env w w' →
  ∃ u u',
    authenticated w u ∧ authenticated w' u'
    ∧ App.timeguard_session w' = Some (Json u')
    ∧ (User.status u = "Checked Out" → User.status u' = "Checked In")
    ∧ (User.status u = "Checked In" → User.status u' = "Checked Out")
    ∧ (User.status u' = "Checked In" →
       User.lastCheckIn u' = Some (App.checkInDate env))
    ∧ (User.status u' ≠ "Checked In" → User.lastCheckIn u' = User.lastCheckIn u)
    ∧ (∀ (i : nat) v,
         stored_users (App.localStorage w) !! i = Some v → User.id v = User.id u →
         ∃ v', stored_users (App.localStorage w') !! i = Some v'
               ∧ User.status v' = User.status u'
               ∧ User.lastCheckIn v' = User.lastCheckIn u')
    ∧ (∀ env2 w'',
         toggles env2 w' w'' →
         User.status u = "Checked In" ∨ User.status u = "Checked Out" →
         ∃ u'', authenticated w'' u'' ∧ User.status u'' = User.status u).
Proof.
  intros Htoggle.
  destruct (toggles_session _ _ _ Htoggle)
    as (u & u' & Hauth & Hauth' & Hsession & _ & Hstatus & Hlast & Hstored).
  exists u, u'. do 3 (split; [done|]).
  split; [by intros Hs; rewrite Hstatus, Hs|].
  split; [by intros Hs; rewrite Hstatus, Hs|].
  split; [intros Hs; by rewrite Hlast, Hs|].
  split.
  { intros Hs. rewrite Hlast. apply strict_eq_false in Hs. by rewrite Hs. }
  split; [done|].
  intros env2 w'' Htoggle2 Htwo.
  destruct (toggles_session _ _ _ Htoggle2)
    as (u2 & u'' & [_ Hu2] & Hauth'' & _ & _ & Hstatus2 & _).
  destruct Hauth' as [_ Hu']. rewrite Hu' in Hu2. injection Hu2 as <-.
  exists u''. split; [done|].
  by rewrite Hstatus2, Hstatus, newStatus_of_twice.
Qed.

Lemma toggle_complement_witness :
  let seeded :=
    App.mkWorld (App.mkState None [] [] false false None) None
                (api.initializeData (api.mkLocalStorage None None)) in
  let w := App.handleLogin "alice" "alice123" seeded in
  let env :=
    App.mkCheckInEnv
      (locationService.Response true (Some (locationService.mkIpifyData "203.0.113.7")))
      (locationService.Position 48.875%float 2.25%float)
      1700000000000 1700000000600 1700000000700 in
  let w' := snd (App.handleCheckIn env w) in
  ∃ u u',
    authenticated w u ∧ authenticated w' u'
    ∧ App.timeguard_session w' = Some (Json u')
    ∧ (User.status u = "Checked Out" → User.status u' = "Checked In")
    ∧ (User.status u = "Checked In" → User.status u' = "Checked Out")
    ∧ (User.status u' = "Checked In" →
       User.lastCheckIn u' = Some (App.checkInDate env))
    ∧ (User.status u' ≠ "Checked In" → User.lastCheckIn u' = User.lastCheckIn u)
    ∧ (∀ (i : nat) v,
         stored_users (App.localStorage w) !! i = Some v → User.id v = User.id u →
         ∃ v', stored_users (App.localStorage w') !! i = Some v'
               ∧ User.status v' = User.status u'
               ∧ User.lastCheckIn v' = User.lastCheckIn u')
    ∧ (∀ env2 w'',
         toggles env2 w' w'' →
         User.status u = "Checked In" ∨ User.status u = "Checked Out" →
         ∃ u'', authenticated w'' u'' ∧ User.status u'' = User.status u).
Proof.
  intros seeded w env w'.
  apply (toggle_complement env w w').
  exists (fst (App.handleCheckIn env w)). split; reflexivity.
Defined.

(** The scenario of the specification, evaluated: Alice logs in on the seed
    store and toggles twice.  The first toggle checks her in and records
    the date read for [lastCheckIn]; the second checks her out and keeps
    that date; the log has the two entries, the newer first. *)
Example toggle_twice_scenario :
  let seeded :=
    App.mkWorld (App.mkState None [] [] false false None) None
                (api.initializeData (api.mkLocalStorage None None)) in
  let w := App.handleLogin "alice" "alice123" seeded in
  let env t :=
    App.mkCheckInEnv
      (locationService.Response true (Some (locationService.mkIpifyData "203.0.113.7")))
      locationService.NotSupported t (t + 600) (t + 1200) in
  let w1 := snd (App.handleCheckIn (env 1700000000000) w) in
  let w2 := snd (App.handleCheckIn (env 1700030000000) w1) in
  toggles (env 1700000000000) w w1
  ∧ toggles (env 1700030000000) w1 w2
  ∧ App.loggedInUser (App.state w1)
    = Some (User.mk "emp-1" "Alice" "alice" None Employee "Checked In"
                    (Some 1700000001200))
  ∧ App.loggedInUser (App.state w2)
    = Some (User.mk "emp-1" "Alice" "alice" None Employee "Checked Out"
                    (Some 1700000001200))
  ∧ stored_users (App.localStorage w2) !! 1%nat
    = Some (User.mk "emp-1" "Alice" "alice" (Some "alice123") Employee
                    "Checked Out" (Some 1700000001200))
  ∧ List.map (λ e, (LogEntry.id e, LogEntry.type e)) (stored_logs (App.localStorage w2))
    = [("log-1700030000600", "out"); ("log-1700000000600", "in")].
Proof.
  repeat split; try by vm_compute.
  all: eexists; split; by vm_compute.
Qed.

(** * Further properties of the mock backend *)

(** ** [deleteUser] and [updateUser] on their own *)

Lemma deleteUser_eq userId ls :
  api.deleteUser userId ls
  = (Resolved tt,
     api.set_users (List.filter (λ u, negb (User.id u === userId)) (stored_users ls)) ls).
Proof. reflexivity. Qed.

Lemma filter_other_id_In userId (l : list User) u :
  In u (List.filter (λ u, negb (User.id u === userId)) l)
  ↔ In u l ∧ User.id u ≠ userId.
Proof.
  rewrite filter_In. split; intros [Hin Hid]; split; try done.
  - apply strict_eq_false. by destruct (User.id u === userId).
  - apply strict_eq_false in Hid. by rewrite Hid.
Qed.

Lemma filter_other_id_absent userId (l : list User) :
  (∀ u, In u l → User.id u ≠ userId) →
  List.filter (λ u, negb (User.id u === userId)) l = l.
Proof.
  intros Habsent. induction l as [|v l IH]; simpl; [done|].
  assert ((User.id v === userId) = false) as ->.
  { apply strict_eq_false, Habsent. by left. }
  simpl. rewrite IH; [done|]. intros u Hin. apply Habsent. by right.
Qed.

Lemma filter_sublist {A} (p : A → bool) (l : list A) : sublist (List.filter p l) l.
Proof.
  induction l as [|x l IH]; simpl; [done|].
  destruct (p x); by constructor.
Qed.

(** X3. [deleteUser] never rejects.  It leaves in the Directory exactly the
    users with another identifier, in the order they had, and does not touch
    the log; when no user has the identifier the Directory holds the same
    users as before; and a second call with the same identifier changes
    nothing. *)
Theorem deleteUser_removes (userId : string) (ls : api.LocalStorage) :
  let ls' := snd (api.deleteUser userId ls) in
  fst (api.deleteUser userId ls) = Resolved tt
  ∧ (∀ u, In u (stored_users ls') ↔ In u (stored_users ls) ∧ User.id u ≠ userId)
  ∧ sublist (stored_users ls') (stored_users ls)
  ∧ api.timeguard_logs ls' = api.timeguard_logs ls
  ∧ ((∀ u, In u (stored_users ls) → User.id u ≠ userId) →
     stored_users ls' = stored_users ls)
  ∧ snd (api.deleteUser userId ls') = ls'.
Proof.
  intros ls'. unfold ls'. rewrite !deleteUser_eq. simpl.
  rewrite stored_users_set_users.
  split; [done|]. split; [apply filter_other_id_In|].
  split; [apply filter_sublist|]. split; [done|]. split.
  - apply filter_other_id_absent.
  - unfold api.set_users. simpl. rewrite filter_other_id_absent; [done|].
    intros u Hin. by apply filter_other_id_In in Hin as [_ Hid].
Qed.

Lemma patched_ids patch users :
  User.id <$> patched patch users = User.id <$> users.
Proof.
  induction users as [|v users IH]; [done|].
  unfold patched in *. rewrite map_cons, !fmap_cons. f_equal; [|exact IH].
  destruct (User.id v === User.id patch) eqn:E; [|done].
  apply strict_eq_true in E. by rewrite merge_id.
Qed.

Lemma patched_other patch users (i : nat) v :
  users !! i = Some v → User.id v ≠ User.id patch →
  patched patch users !! i = Some v.
Proof.
  intros Hi Hid. rewrite (patched_lookup _ _ _ _ Hi).
  apply strict_eq_false in Hid. by rewrite Hid.
Qed.

(** X2. [updateUser] rejects with "User not found." exactly when no stored
    user has the identifier of the patch, and then the store is left as it
    was.  When it resolves, the Directory has as many users as before, with
    the same identifiers in the same order, the users with another
    identifier are the ones stored before, and the log is not touched. *)
Theorem updateUser_not_found_iff (patch : User) (ls : api.LocalStorage) :
  let absent := ∀ u, In u (stored_users ls) → User.id u ≠ User.id patch in
  let ls' := snd (api.updateUser patch ls) in
  (fst (api.updateUser patch ls) = Rejected UserNotFound ↔ absent)
  ∧ (absent → ls' = ls)
  ∧ (¬ absent → ∃ saved, fst (api.updateUser patch ls) = Resolved saved
                         ∧ User.id saved = User.id patch)
  ∧ User.id <$> stored_users ls' = User.id <$> stored_users ls
  ∧ (∀ (i : nat) v, stored_users ls !! i = Some v → User.id v ≠ User.id patch →
       stored_users ls' !! i = Some v)
  ∧ api.timeguard_logs ls' = api.timeguard_logs ls.
Proof.
  intros absent ls'. unfold ls'.
  destruct (first_match_or_none User.id (User.id patch) (stored_users ls))
    as [[u Hu]|Hnone].
  - assert (Hpresent : ¬ absent).
    { intros Habsent. destruct Hu as (pre & post & Heq & Hid & _).
      apply (Habsent u); [|done]. rewrite Heq. apply in_or_app. right. by left. }
    rewrite (updateUser_found _ _ _ Hu). simpl. rewrite stored_users_set_users.
    split; [split; [done|by intros ?]|]. split; [done|].
    split; [intros _; by eexists|]. split; [apply patched_ids|].
    split; [apply patched_other|done].
  - rewrite (updateUser_missing _ _ Hnone). simpl.
    split; [done|]. split; [done|]. split; [by intros []|]. done.
Qed.

Lemma merge_merge u patch : api.merge (api.merge u patch) patch = api.merge u patch.
Proof.
  unfold api.merge. simpl.
  by destruct (truthy_string (User.password patch)).
Qed.

Lemma patched_patched patch users :
  patched patch (patched patch users) = patched patch users.
Proof.
  induction users as [|v users IH]; simpl; [done|].
  rewrite IH. f_equal.
  destruct (User.id v === User.id patch) eqn:E.
  - by rewrite merge_id, strict_eq_refl, merge_merge.
  - by rewrite E.
Qed.

Lemma first_match_patched patch users u :
  first_match (λ u, User.id u = User.id patch) users u →
  first_match (λ u, User.id u = User.id patch) (patched patch users)
              (api.merge u patch).
Proof.
  intros Hu. apply find_field_first. apply find_field_first in Hu.
  by rewrite find_patched, Hu.
Qed.

(** X6. [updateUser] is idempotent: a second call with the same patch
    settles like the first one and leaves the store the first one left. *)
Theorem updateUser_idempotent (patch : User) (ls : api.LocalStorage) :
  api.updateUser patch (snd (api.updateUser patch ls))
  = (fst (api.updateUser patch ls), snd (api.updateUser patch ls)).
Proof.
  destruct (first_match_or_none User.id (User.id patch) (stored_users ls))
    as [[u Hu]|Hnone].
  - rewrite (updateUser_found _ _ _ Hu). simpl.
    rewrite (updateUser_found _ _ (api.merge u patch)).
    + by rewrite stored_users_set_users, patched_patched, merge_merge.
    + rewrite stored_users_set_users. by apply first_match_patched.
  - rewrite (updateUser_missing _ _ Hnone). simpl.
    by rewrite (updateUser_missing _ _ Hnone).
Qed.

(** ** Sequences of calls *)

Lemma call_addUser_users newUser ls :
  stored_users (call (CallAddUser newUser) ls) = stored_users ls
  ∨ ((∀ u, In u (stored_users ls) → User.username u ≠ User.username newUser)
     ∧ stored_users (call (CallAddUser newUser) ls) = stored_users ls ++ [newUser]).
Proof.
  simpl. destruct (addUser_cases newUser ls) as [[_ ->]|[Hfresh ->]]; [by left|].
  right. split; [|done]. intros u Hin Hname. apply Hfresh. by exists u.
Qed.

Lemma call_preserves_unique_usernames c ls :
  is_update c = false →
  NoDup (User.username <$> stored_users ls) →
  NoDup (User.username <$> stored_users (call c ls)).
Proof.
  intros Hc Hnd. destruct c as [un pw| | |newUser|patch|userId|now newLog];
    try done.
  - simpl. by rewrite login_pure.
  - destruct (call_addUser_users newUser ls) as [->|[Hfresh ->]]; [done|].
    rewrite fmap_app. apply NoDup_app. split; [done|]. split.
    + intros x Hx Hx'. apply list_elem_of_fmap in Hx as (u & -> & Hu).
      apply list_elem_of_singleton in Hx'. apply (Hfresh u); [|done].
      by apply list_elem_of_In.
    + apply NoDup_singleton.
  - simpl. rewrite stored_users_set_users.
    eapply sublist_NoDup; [exact Hnd|]. apply fmap_sublist, filter_sublist.
Qed.

(** X1. Sequences of calls keep usernames unique, as long as none of the
    calls is [updateUser]: if no two stored users share a username before,
    none do after any number of calls of [login], [getUsers], [getLogs],
    [addUser], [deleteUser] and [addLog], whatever their arguments. *)
Theorem calls_keep_usernames_unique (cs : list ApiCall) (ls : api.LocalStorage) :
  forallb (λ c, negb (is_update c)) cs = true →
  NoDup (User.username <$> stored_users ls) →
  NoDup (User.username <$> stored_users (calls cs ls)).
Proof.
  revert ls. induction cs as [|c cs IH]; intros ls Hcs Hnd; [done|].
  simpl in Hcs. apply andb_true_iff in Hcs as [Hc Hcs].
  change (calls (c :: cs) ls) with (calls cs (call c ls)).
  apply IH; [done|]. apply call_preserves_unique_usernames; [|done].
  by destruct (is_update c).
Qed.

Lemma calls_keep_usernames_unique_witness :
  let dave pw := User.mk "emp-4" "Dave" "dave" (Some pw) Employee "Checked Out" None in
  let alice2 := User.mk "emp-5" "Alice B." "alice" (Some "x") Employee "Checked Out" None in
  let cs := [CallAddUser (dave "d1"); CallAddUser alice2; CallAddUser (dave "d2");
             CallDeleteUser "emp-2"; CallLogin "dave" "d1"; CallGetUsers] in
  let ls := api.initializeData (api.mkLocalStorage None None) in
  NoDup (User.username <$> stored_users (calls cs ls))
  ∧ User.username <$> stored_users (calls cs ls) = ["admin"; "alice"; "charlie"; "dave"].
Proof.
  intros dave alice2 cs ls. split; [|reflexivity].
  apply (calls_keep_usernames_unique cs ls); [reflexivity|].
  apply (bool_decide_unpack _). by vm_compute.
Defined.

(** X7. [updateUser] does not check usernames: a patch for one stored user
    that carries the username of a stored user with another identifier is
    accepted, and afterwards two stored users share that username. *)
Theorem updateUser_can_duplicate_username
    (patch u v : User) (ls : api.LocalStorage) :
  In u (stored_users ls) → User.id u = User.id patch →
  In v (stored_users ls) → User.id v ≠ User.id patch →
  User.username v = User.username patch →
  (∃ saved, fst (api.updateUser patch ls) = Resolved saved
            ∧ User.username saved = User.username v)
  ∧ ¬ NoDup (User.username <$> stored_users (snd (api.updateUser patch ls))).
Proof.
  intros Hu Hidu Hv Hidv Hname.
  destruct (updateUser_resolves patch ls u Hu Hidu) as [u0 Hu0].
  rewrite (updateUser_found _ _ _ Hu0). simpl. rewrite stored_users_set_users.
  split; [by eexists|]. intros Hnd.
  apply list_elem_of_In, list_elem_of_lookup_1 in Hu as [i Hi].
  apply list_elem_of_In, list_elem_of_lookup_1 in Hv as [j Hj].
  assert (i = j) as ->.
  { apply (NoDup_lookup _ i j (User.username patch) Hnd).
    - rewrite list_lookup_fmap, (patched_lookup _ _ _ _ Hi).
      apply strict_eq_true in Hidu. by rewrite Hidu.
    - rewrite list_lookup_fmap, (patched_other _ _ _ _ Hj Hidv). simpl.
      by rewrite Hname. }
  congruence.
Qed.

Lemma updateUser_can_duplicate_username_witness :
  let ls := api.initializeData (api.mkLocalStorage None None) in
  let patch := User.mk "emp-2" "Bob" "alice" None Employee "Checked Out" None in
  NoDup (User.username <$> stored_users ls)
  ∧ (∃ saved, fst (api.updateUser patch ls) = Resolved saved
              ∧ User.username saved = "alice")
  ∧ ¬ NoDup (User.username <$> stored_users (snd (api.updateUser patch ls))).
Proof.
  intros ls patch. split.
  { apply (bool_decide_unpack _). by vm_compute. }
  apply (updateUser_can_duplicate_username patch
           (User.mk "emp-2" "Bob" "bob" (Some "bob123") Employee "Checked Out" None)
           (User.mk "emp-1" "Alice" "alice" (Some "alice123") Employee "Checked Out" None)
           ls); vm_compute; auto; discriminate.
Defined.

Lemma call_logs c ls :
  stored_logs (call c ls)
  = match c with
    | CallAddLog now newLog => logWithId (now, newLog) :: stored_logs ls
    | _ => stored_logs ls
    end.
Proof.
  destruct c as [un pw| | |newUser|patch|userId|now newLog]; try done.
  - simpl. by rewrite login_pure.
  - simpl. by destruct (addUser_cases newUser ls) as [[_ ->]|[_ ->]].
  - simpl. by destruct (updateUser_cases patch ls) as [[u ->]| ->].
Qed.

(** X8. The log is append-only.  Whatever calls of api.ts are made, with
    whatever arguments, the entries stored before are still there
    afterwards, unchanged and in the same order, at the end of the stored
    log; the log has grown by exactly one entry for each call of [addLog];
    and a call of [addLog] leaves the Users item as it was. *)
Theorem calls_log_append_only (cs : list ApiCall) (ls : api.LocalStorage) :
  stored_logs ls `suffix_of` stored_logs (calls cs ls)
  ∧ length (stored_logs (calls cs ls))
    = (length (stored_logs ls) + length (List.filter is_addLog cs))%nat
  ∧ (∀ now newLog,
       api.timeguard_users (snd (api.addLog now newLog ls)) = api.timeguard_users ls).
Proof.
  split; [|split; [|done]]; revert ls; induction cs as [|c cs IH]; intros ls.
  - done.
  - change (calls (c :: cs) ls) with (calls cs (call c ls)).
    etrans; [|apply IH]. rewrite call_logs.
    destruct c; try done. by apply suffix_cons_r.
  - simpl. lia.
  - change (calls (c :: cs) ls) with (calls cs (call c ls)).
    rewrite IH, call_logs. destruct c; simpl; lia.
Qed.

(** ** How the calls compose *)

Lemma pair_fst_snd {A B} (p : A * B) a b : fst p = a → snd p = b → p = (a, b).
Proof. destruct p. simpl. congruence. Qed.

(** X5. A user that [addUser] has accepted can log in: with the username
    and the password of the candidate, [login] on the store [addUser] left
    resolves with what [addUser] resolved with, the candidate without its
    password (no password, every other field the candidate's), and leaves
    the store as it is. *)
Theorem addUser_then_login (newUser : User) (password : string) (ls : api.LocalStorage) :
  (∀ u, In u (stored_users ls) → User.username u ≠ User.username newUser) →
  User.password newUser = Some password →
  let ls' := snd (api.addUser newUser ls) in
  ∃ result,
    fst (api.addUser newUser ls) = Resolved result
    ∧ api.login (User.username newUser) password ls' = (Resolved result, ls')
    ∧ User.password result = None
    ∧ User.id result = User.id newUser
    ∧ User.name result = User.name newUser
    ∧ User.username result = User.username newUser
    ∧ User.role result = User.role newUser
    ∧ User.status result = User.status newUser
    ∧ User.lastCheckIn result = User.lastCheckIn newUser.
Proof.
  intros Hfresh Hpw ls'. unfold ls'.
  destruct (addUser_cases newUser ls) as [[(u & Hin & Hname) _]|[_ Hadd]].
  { by destruct (Hfresh u). }
  rewrite Hadd. simpl. exists (api.stripPassword newUser). split; [done|].
  split; [|apply stripPassword_without_password].
  apply pair_fst_snd; [|apply login_pure].
  rewrite (login_first_match _ _ _ newUser).
  - by rewrite decide_True.
  - rewrite stored_users_set_users. exists (stored_users ls), [].
    split; [done|]. split; [done|]. apply List.Forall_forall. intros u Hin.
    by apply Hfresh.
Qed.

Lemma addUser_then_login_witness :
  let ls := api.initializeData (api.mkLocalStorage None None) in
  let dave := User.mk "emp-4" "Dave" "dave" (Some "") Employee "Checked Out" None in
  let ls' := snd (api.addUser dave ls) in
  ∃ result,
    fst (api.addUser dave ls) = Resolved result
    ∧ api.login "dave" "" ls' = (Resolved result, ls')
    ∧ User.password result = None
    ∧ User.id result = "emp-4"
    ∧ User.name result = "Dave"
    ∧ User.username result = "dave"
    ∧ User.role result = Employee
    ∧ User.status result = "Checked Out"
    ∧ User.lastCheckIn result = None.
Proof.
  intros ls dave.
  apply (addUser_then_login dave "" ls); [|reflexivity].
  intros u Hin. vm_compute in Hin.
  repeat (destruct Hin as [<-|Hin]; [discriminate|]). done.
Defined.

(** X4. Adding a user and deleting it again gives back the Directory: when
    neither the username nor the identifier of the candidate is in use,
    [deleteUser] with the identifier of the candidate, after [addUser], leaves
    the users that were stored before, in the same order. *)
Theorem addUser_then_deleteUser (newUser : User) (ls : api.LocalStorage) :
  (∀ u, In u (stored_users ls) → User.username u ≠ User.username newUser) →
  (∀ u, In u (stored_users ls) → User.id u ≠ User.id newUser) →
  stored_users (snd (api.deleteUser (User.id newUser) (snd (api.addUser newUser ls))))
  = stored_users ls.
Proof.
  intros Hname Hid.
  destruct (addUser_cases newUser ls) as [[(u & Hin & Hu) _]|[_ ->]].
  { by destruct (Hname u). }
  rewrite deleteUser_eq. simpl. rewrite !stored_users_set_users.
  rewrite List.filter_app, (filter_other_id_absent _ _ Hid). simpl.
  by rewrite strict_eq_refl, app_nil_r.
Qed.

Lemma addUser_then_deleteUser_witness :
  let ls := api.initializeData (api.mkLocalStorage None None) in
  let dave := User.mk "emp-4" "Dave" "dave" (Some "d1") Employee "Checked Out" None in
  stored_users (snd (api.deleteUser "emp-4" (snd (api.addUser dave ls))))
  = api.initialUsers.
Proof.
  intros ls dave.
  apply (addUser_then_deleteUser dave ls); intros u Hin; vm_compute in Hin;
    repeat (destruct Hin as [<-|Hin]; [discriminate|]); done.
Defined.

(** * Further properties of the component *)

(** ** The guard and the failure of [handleCheckIn] *)

(** The guard of [handleCheckIn] has no side effect: while a run is in
    progress, or when nobody is logged in, the handler answers with its
    refusal and leaves the component state and the two stores as they were;
    no entry is logged. *)
Theorem handleCheckIn_guard_no_effect (env : App.CheckInEnv) (w : App.World) :
  App.isProcessing (App.state w) = true ∨ App.loggedInUser (App.state w) = None →
  App.handleCheckIn env w
  = (App.mkCheckInResult false
       "Another operation is in progress or user not logged in.", w).
Proof.
  intros [Hproc|Hnone]; unfold App.handleCheckIn.
  - by rewrite Hproc.
  - rewrite Hnone. by destruct (App.isProcessing (App.state w)).
Qed.

Lemma handleCheckIn_guard_no_effect_witness :
  let alice := User.mk "emp-1" "Alice" "alice" None Employee "Checked Out" None in
  let busy :=
    App.mkWorld (App.mkState (Some alice) [] [] false true None) (Some (Json alice))
                (api.initializeData (api.mkLocalStorage None None)) in
  let env :=
    App.mkCheckInEnv locationService.FetchRejected locationService.NotSupported
                     1700000000000 1700000000600 1700000000700 in
  App.handleCheckIn env busy
  = (App.mkCheckInResult false
       "Another operation is in progress or user not logged in.", busy).
Proof.
  intros alice busy env. apply (handleCheckIn_guard_no_effect env busy).
  left. reflexivity.
Defined.

Lemma guard_or_authenticated w :
  (App.isProcessing (App.state w) = true ∨ App.loggedInUser (App.state w) = None)
  ∨ ∃ u, authenticated w u.
Proof.
  unfold authenticated. destruct (App.isProcessing (App.state w)); [by left; left|].
  destruct (App.loggedInUser (App.state w)) as [u|]; [|by left; right].
  right. by exists u.
Qed.

(** X10. A run of [handleCheckIn] that passes the guard fails exactly when
    no stored user has the identifier of the session identity.  Nothing is
    rolled back then: the entry stays at the head of the stored log, while
    the Directory, the session, the logged-in user and the [logs] hook are
    as before, so the stored log has an entry the component does not show;
    the handler is ready for the next run. *)
Theorem handleCheckIn_failure_keeps_entry
    (env : App.CheckInEnv) (w : App.World) (u : User) :
  authenticated w u →
  let absent := ∀ v, In v (stored_users (App.localStorage w)) → User.id v ≠ User.id u in
  let run := App.handleCheckIn env w in
  (App.success (fst run) = false ↔ absent)
  ∧ (absent →
     fst run = App.mkCheckInResult false "Check-in process failed. Please try again."
     ∧ (∃ entry,
          stored_logs (App.localStorage (snd run))
          = entry :: stored_logs (App.localStorage w)
          ∧ LogEntry.userId entry = User.id u)
     ∧ api.timeguard_users (App.localStorage (snd run))
       = api.timeguard_users (App.localStorage w)
     ∧ App.timeguard_session (snd run) = App.timeguard_session w
     ∧ App.loggedInUser (App.state (snd run)) = Some u
     ∧ App.users (App.state (snd run)) = App.users (App.state w)
     ∧ App.logs (App.state (snd run)) = App.logs (App.state w)
     ∧ App.isProcessing (App.state (snd run)) = false).
Proof.
  intros Hauth absent run. unfold run.
  destruct (handleCheckIn_authenticated env w u Hauth)
    as (ip & Hip & [[Hnone ->]|(v & Hv & ->)]); simpl.
  - split; [done|]. intros _. split; [done|]. split.
    + eexists. split; [done|]. simpl.
      by destruct (newLog_of_context env u ip) as (_ & -> & _).
    + destruct Hauth as [_ Hu]. by rewrite Hu.
  - assert (¬ absent) as Hpresent.
    { intros Habsent. destruct Hv as (pre & post & Heq & Hid & _).
      apply (Habsent v); [|done]. rewrite Heq. apply in_or_app. right. by left. }
    split; [|done]. split; [done|]. intros Habsent. by destruct Hpresent.
Qed.

Lemma handleCheckIn_failure_keeps_entry_witness :
  let ghost := User.mk "emp-7" "Grace" "grace" None Employee "Checked Out" None in
  let w :=
    App.mkWorld (App.mkState (Some ghost) [] [] false false None) (Some (Json ghost))
                (api.initializeData (api.mkLocalStorage None None)) in
  let env :=
    App.mkCheckInEnv locationService.FetchRejected locationService.NotSupported
                     1700000000000 1700000000600 1700000000700 in
  let run := App.handleCheckIn env w in
  fst run = App.mkCheckInResult false "Check-in process failed. Please try again."
  ∧ length (stored_logs (App.localStorage (snd run))) = 1%nat
  ∧ App.logs (App.state (snd run)) = [].
Proof.
  intros ghost w env run.
  destruct (handleCheckIn_failure_keeps_entry env w ghost) as [_ Hrun].
  { split; reflexivity. }
  destruct Hrun as (Hres & (entry & Hlogs & _) & _ & _ & _ & _ & Hhook & _).
  { intros v Hin. vm_compute in Hin.
    repeat (destruct Hin as [<-|Hin]; [discriminate|]). done. }
  split; [exact Hres|]. split; [|exact Hhook].
  fold run in Hlogs. by rewrite Hlogs.
Defined.

(** ** What a check-in writes to the Directory *)

(** X11. A run of [handleCheckIn] that passes the guard writes the session
    identity over the stored records that have its identifier: afterwards
    such a record has the name, the username and the role of the session
    identity, whatever the Directory held, and keeps its own password when
    the session identity has none (or an empty one).  The records with
    another identifier are left as they were. *)
Theorem handleCheckIn_writes_session_identity
    (env : App.CheckInEnv) (w : App.World) (u : User) (i : nat) (v : User) :
  authenticated w u →
  stored_users (App.localStorage w) !! i = Some v →
  let ls' := App.localStorage (snd (App.handleCheckIn env w)) in
  (User.id v = User.id u →
   ∃ v', stored_users ls' !! i = Some v'
         ∧ User.name v' = User.name u
         ∧ User.username v' = User.username u
         ∧ User.role v' = User.role u
         ∧ (User.password u = None ∨ User.password u = Some "" →
            User.password v' = User.password v))
  ∧ (User.id v ≠ User.id u → stored_users ls' !! i = Some v).
Proof.
  intros Hauth Hi ls'. split.
  - intros Hid. exists (api.merge v (App.updatedUser_of env u)).
    split; [by apply handleCheckIn_stored_users|]. do 3 (split; [done|]).
    intros [Hp|Hp]; unfold api.merge; simpl; by rewrite Hp.
  - intros Hid. unfold ls'.
    destruct (handleCheckIn_authenticated env w u Hauth)
      as (ip & Hip & [[_ ->]|(v' & _ & ->)]); simpl; [done|].
    rewrite stored_users_set_users. by apply patched_other.
Qed.

Lemma handleCheckIn_writes_session_identity_witness :
  let stale := User.mk "emp-1" "Alice" "alice" None Employee "Checked Out" None in
  let edited :=
    User.mk "emp-1" "Alice Liddell" "aliddell" (Some "w0nder") Employee "Checked Out" None in
  let ls :=
    snd (api.updateUser edited (api.initializeData (api.mkLocalStorage None None))) in
  let w :=
    App.mkWorld (App.mkState (Some stale) [] [] false false None) (Some (Json stale)) ls in
  let env :=
    App.mkCheckInEnv locationService.FetchRejected locationService.NotSupported
                     1700000000000 1700000000600 1700000000700 in
  stored_users ls !! 1%nat = Some edited
  ∧ stored_users (App.localStorage (snd (App.handleCheckIn env w))) !! 1%nat
    = Some (User.mk "emp-1" "Alice" "alice" (Some "w0nder") Employee "Checked In"
                    (Some 1700000000700)).
Proof.
  intros stale edited ls w env. split; [reflexivity|].
  destruct (handleCheckIn_writes_session_identity env w stale 1%nat edited)
    as [Hsame _]; [split; reflexivity|reflexivity|].
  destruct (Hsame eq_refl) as (v' & Hv' & _). reflexivity.
Defined.

(** ** Sessions across page loads *)

Lemma loadData_session w p :
  App.timeguard_session w = Some (Json p) →
  let present := existsb (λ u, User.id u === User.id p)
                         (stored_users (App.localStorage w)) in
  App.loggedInUser (App.state (App.loadData w))
  = (if present then Some p else App.loggedInUser (App.state w))
  ∧ App.timeguard_session (App.loadData w)
    = (if present then Some (Json p) else None).
Proof.
  intros Hsession present. unfold App.loadData.
  rewrite getUsers_eq, getLogs_eq, Hsession.
  assert (existsb (λ u, User.id u === User.id p)
            (List.map api.stripPassword (stored_users (App.localStorage w)))
          = present) as ->.
  { unfold present. induction (stored_users (App.localStorage w)) as [|v l IH];
      simpl; [done|]. by rewrite IH. }
  by destruct present.
Qed.

Lemma reload_restores w p :
  App.timeguard_session w = Some (Json p) →
  (∃ v, In v (stored_users (App.localStorage w)) ∧ User.id v = User.id p) →
  App.loggedInUser (App.state (reload w)) = Some p
  ∧ App.timeguard_session (reload w) = Some (Json p).
Proof.
  intros Hsession Hpresent. apply (existsb_field User.id) in Hpresent.
  unfold reload.
  destruct (loadData_session
              (App.mkWorld App.initialState (App.timeguard_session w)
                           (App.localStorage w)) p Hsession) as [Hu Hs].
  simpl in Hu, Hs. rewrite Hpresent in Hu, Hs. done.
Qed.

(** X12. A login survives a page load: when [login] accepts the
    credentials, [handleLogin] makes the returned user the logged-in user
    and the session identity, clears the login error and does not write
    [localStorage]; and when the page is loaded again on the stores it left,
    the same user is logged in and the session item is kept. *)
Theorem handleLogin_then_reload
    (username password : string) (w : App.World) (user : User) :
  fst (api.login username password (App.localStorage w)) = Resolved user →
  let w' := App.handleLogin username password w in
  App.loggedInUser (App.state w') = Some user
  ∧ App.timeguard_session w' = Some (Json user)
  ∧ App.loginError (App.state w') = None
  ∧ App.localStorage w' = App.localStorage w
  ∧ App.loggedInUser (App.state (reload w')) = Some user
  ∧ App.timeguard_session (reload w') = Some (Json user).
Proof.
  intros Hlogin w'.
  pose proof (login_pure username password (App.localStorage w)) as Hpure.
  assert (Hw' : w' = App.mkWorld
            (App.mkState (Some user) (App.users (App.state w)) (App.logs (App.state w))
                         (App.isLoading (App.state w)) (App.isProcessing (App.state w))
                         None)
            (Some (Json user)) (App.localStorage w)).
  { unfold w', App.handleLogin.
    destruct (api.login username password (App.localStorage w)) as [r ls'].
    simpl in *. by subst. }
  rewrite Hw'. do 4 (split; [done|]).
  apply reload_restores; [done|]. simpl.
  destruct (first_match_or_none User.username username
              (stored_users (App.localStorage w))) as [[v Hv]|Hnone].
  - rewrite (login_first_match _ _ _ _ Hv) in Hlogin. case_decide; [|done].
    injection Hlogin as <-. exists v. split; [|done].
    destruct Hv as (pre & post & -> & _). apply in_or_app. right. by left.
  - by rewrite login_no_match in Hlogin.
Qed.

Lemma handleLogin_then_reload_witness :
  let w :=
    App.mkWorld (App.mkState None [] [] false false (Some "Invalid username or password."))
                None (api.initializeData (api.mkLocalStorage None None)) in
  let bob := User.mk "emp-2" "Bob" "bob" None Employee "Checked Out" None in
  let w' := App.handleLogin "bob" "bob123" w in
  App.loggedInUser (App.state w') = Some bob
  ∧ App.timeguard_session w' = Some (Json bob)
  ∧ App.loginError (App.state w') = None
  ∧ App.localStorage w' = App.localStorage w
  ∧ App.loggedInUser (App.state (reload w')) = Some bob
  ∧ App.timeguard_session (reload w') = Some (Json bob).
Proof.
  intros w bob. apply (handleLogin_then_reload "bob" "bob123" w bob). reflexivity.
Defined.

(** X13. A successful check-in survives a page load: when the page is
    loaded again on the stores a successful toggle left, the user that is
    logged in is the identity the toggle published, with its new status. *)
Theorem toggle_then_reload (env : App.CheckInEnv) (w w' : App.World) :
  toggles env w w' →
  ∃ u u',
    App.loggedInUser (App.state w) = Some u
    ∧ App.loggedInUser (App.state w') = Some u'
    ∧ User.status u' = App.newStatus_of (User.status u)
    ∧ App.loggedInUser (App.state (reload w')) = Some u'
    ∧ App.timeguard_session (reload w') = App.timeguard_session w'.
Proof.
  intros Htoggle.
  destruct (toggles_inv _ _ _ Htoggle) as (u & Hauth & -> & Hok).
  destruct (handleCheckIn_success env w u Hauth Hok)
    as (v & Hv & Hu' & Hsession & _ & _).
  exists u, (api.stripPassword (api.merge v (App.updatedUser_of env u))).
  split; [apply Hauth|]. split; [done|]. split; [done|].
  rewrite Hsession. apply reload_restores; [done|].
  destruct Hv as (pre & post & Heq & Hid & _).
  assert (Hi : stored_users (App.localStorage w) !! length pre = Some v).
  { rewrite Heq. by apply list_lookup_middle. }
  exists (api.merge v (App.updatedUser_of env u)). split; [|done].
  apply list_elem_of_In. eapply list_elem_of_lookup_2.
  by apply handleCheckIn_stored_users.
Qed.

Lemma toggle_then_reload_witness :
  let seeded :=
    App.mkWorld (App.mkState None [] [] false false None) None
                (api.initializeData (api.mkLocalStorage None None)) in
  let w := App.handleLogin "charlie" "charlie123" seeded in
  let env :=
    App.mkCheckInEnv locationService.FetchRejected locationService.NotSupported
                     1700000000000 1700000000600 1700000000700 in
  let w' := snd (App.handleCheckIn env w) in
  ∃ u u',
    App.loggedInUser (App.state w) = Some u
    ∧ App.loggedInUser (App.state w') = Some u'
    ∧ User.status u' = App.newStatus_of (User.status u)
    ∧ App.loggedInUser (App.state (reload w')) = Some u'
    ∧ App.timeguard_session (reload w') = App.timeguard_session w'.
Proof.
  intros seeded w env w'. apply (toggle_then_reload env w w').
  exists (fst (App.handleCheckIn env w)). split; reflexivity.
Defined.

(** ** Invariants of the component *)

Lemma stripPassword_merge v patch :
  api.stripPassword (api.merge v patch) = api.stripPassword patch.
Proof. reflexivity. Qed.

Lemma map_replace_saved patch (l : list User) :
  List.map (λ u, if User.id u === User.id (api.stripPassword patch)
                 then api.stripPassword patch else u)
           (List.map api.stripPassword l)
  = List.map api.stripPassword (patched patch l).
Proof.
  induction l as [|v l IH]; simpl in *; [done|]. rewrite IH. f_equal.
  by destruct (User.id v === User.id patch).
Qed.

Lemma filter_stripPassword userId (l : list User) :
  List.filter (λ u, negb (User.id u === userId)) (List.map api.stripPassword l)
  = List.map api.stripPassword (List.filter (λ u, negb (User.id u === userId)) l).
Proof.
  induction l as [|v l IH]; simpl; [done|]. rewrite IH.
  by destruct (User.id v === userId).
Qed.

(** What each handler does to the world, case by case. *)
Lemma handleAddUser_cases user w :
  App.handleAddUser user w = (Rejected DuplicateUsername, w)
  ∨ App.handleAddUser user w
    = (Resolved tt,
       App.mkWorld
         (App.mkState (App.loggedInUser (App.state w))
                      (App.users (App.state w) ++ [api.stripPassword user])
                      (App.logs (App.state w)) (App.isLoading (App.state w))
                      (App.isProcessing (App.state w)) (App.loginError (App.state w)))
         (App.timeguard_session w)
         (api.set_users (stored_users (App.localStorage w) ++ [user])
                        (App.localStorage w))).
Proof.
  unfold App.handleAddUser.
  destruct (addUser_cases user (App.localStorage w)) as [[_ ->]|[_ ->]].
  - left. by destruct w.
  - by right.
Qed.

Lemma handleUpdateUser_cases patch w :
  App.handleUpdateUser patch w = (Rejected UserNotFound, w)
  ∨ App.handleUpdateUser patch w
    = (Resolved tt,
       App.mkWorld
         (App.mkState (App.loggedInUser (App.state w))
                      (List.map (λ u, if User.id u === User.id (api.stripPassword patch)
                                      then api.stripPassword patch else u)
                                (App.users (App.state w)))
                      (App.logs (App.state w)) (App.isLoading (App.state w))
                      (App.isProcessing (App.state w)) (App.loginError (App.state w)))
         (App.timeguard_session w)
         (api.set_users (patched patch (stored_users (App.localStorage w)))
                        (App.localStorage w))).
Proof.
  unfold App.handleUpdateUser.
  destruct (updateUser_cases patch (App.localStorage w)) as [[u ->]| ->].
  - by right.
  - left. by destruct w.
Qed.

Lemma handleCheckIn_cases env w :
  snd (App.handleCheckIn env w) = w
  ∨ ∃ u ip,
      authenticated w u ∧
      let createdLog := logWithId (App.logNow env, App.newLog_of env u ip) in
      let patch := App.updatedUser_of env u in
      let ls := App.localStorage w in
      let ls1 := api.set_logs (createdLog :: stored_logs ls) ls in
      snd (App.handleCheckIn env w) = failed_world w ls1
      ∨ snd (App.handleCheckIn env w)
        = succeeded_world w createdLog (api.stripPassword patch)
            (api.set_users (patched patch (stored_users ls)) ls1).
Proof.
  destruct (guard_or_authenticated w) as [Hguard|[u Hauth]].
  - left. by rewrite handleCheckIn_guard_no_effect.
  - right. exists u.
    destruct (handleCheckIn_authenticated env w u Hauth)
      as (ip & _ & [[_ ->]|(v & _ & ->)]); exists ip; (split; [done|]);
      [by left|by right].
Qed.

Lemma act_synced a w : synced w → synced (act a w).
Proof.
  unfold synced. intros Hw. destruct a as [un pw| |env|user|patch|userId]; cbn [act].
  - unfold App.handleLogin.
    pose proof (login_pure un pw (App.localStorage w)) as Hpure.
    destruct (api.login un pw (App.localStorage w)) as [[user|e] ls];
      simpl in *; by subst.
  - done.
  - destruct (handleCheckIn_cases env w) as [->|(u & ip & _ & [->| ->])];
      [done|done|]. unfold succeeded_world.
    cbn [App.users App.state App.localStorage].
    rewrite Hw, stored_users_set_users. apply map_replace_saved.
  - destruct (handleAddUser_cases user w) as [->| ->]; [done|]. simpl.
    by rewrite Hw, stored_users_set_users, map_app.
  - destruct (handleUpdateUser_cases patch w) as [->| ->]; [done|].
    cbn [snd App.users App.state App.localStorage].
    rewrite Hw, stored_users_set_users. apply map_replace_saved.
  - unfold App.handleDeleteUser. rewrite deleteUser_eq. simpl.
    by rewrite Hw, stored_users_set_users, filter_stripPassword.
Qed.

Lemma start_synced session ls : synced (start session ls).
Proof.
  unfold synced, start, App.loadData. rewrite getUsers_eq, getLogs_eq.
  destruct session as [[|p]|]; simpl; try done.
  by destruct (existsb _ _).
Qed.

Lemma acts_invariant (P : App.World → Prop) actions w :
  (∀ a w, P w → P (act a w)) → P w → P (acts actions w).
Proof.
  intros Hact. revert w. induction actions as [|a actions IH]; intros w Hw; [done|].
  change (acts (a :: actions) w) with (acts actions (act a w)). by apply IH, Hact.
Qed.

Lemma acts_start_synced session ls actions : synced (acts actions (start session ls)).
Proof. apply acts_invariant; [apply act_synced|apply start_synced]. Qed.

Lemma synced_no_password w :
  synced w → Forall (λ u, User.password u = None) (App.users (App.state w)).
Proof.
  intros Hsync. rewrite Hsync. apply List.Forall_forall.
  intros u Hin. by apply in_map_iff in Hin as (v & <- & _).
Qed.

(** X14. The [users] hook stays in step with the Directory.  After the
    component has loaded, and after any number of logins, logouts,
    check-ins and additions, updates and deletions of users, with whatever
    arguments and whether they succeed or fail, the [users] hook holds the
    stored users in the stored order, each without its password. *)
Theorem users_hook_shows_directory
    (session : option (Text User)) (ls : api.LocalStorage) (actions : list Action) :
  let w := acts actions (start session ls) in
  App.users (App.state w)
  = List.map api.stripPassword (stored_users (App.localStorage w))
  ∧ Forall (λ u, User.password u = None) (App.users (App.state w)).
Proof.
  intros w. split; [apply acts_start_synced|].
  apply synced_no_password, acts_start_synced.
Qed.

Lemma handleLogin_cases un pw w :
  (∃ v, In v (stored_users (App.localStorage w))
        ∧ App.handleLogin un pw w
          = App.mkWorld
              (App.mkState (Some (api.stripPassword v)) (App.users (App.state w))
                           (App.logs (App.state w)) (App.isLoading (App.state w))
                           (App.isProcessing (App.state w)) None)
              (Some (Json (api.stripPassword v))) (App.localStorage w))
  ∨ App.handleLogin un pw w
    = App.mkWorld
        (App.mkState (App.loggedInUser (App.state w)) (App.users (App.state w))
                     (App.logs (App.state w)) (App.isLoading (App.state w))
                     (App.isProcessing (App.state w))
                     (Some "Invalid username or password."))
        (App.timeguard_session w) (App.localStorage w).
Proof.
  unfold App.handleLogin.
  pose proof (login_pure un pw (App.localStorage w)) as Hpure.
  destruct (first_match_or_none User.username un (stored_users (App.localStorage w)))
    as [[v Hv]|Hnone].
  - pose proof (login_first_match un pw _ _ Hv) as Hres.
    destruct (api.login un pw (App.localStorage w)) as [r ls]. simpl in *. subst.
    case_decide; [|by right]. left. exists v. split; [|done].
    destruct Hv as (pre & post & -> & _). apply in_or_app. right. by left.
  - pose proof (login_no_match un pw _ Hnone) as Hres.
    destruct (api.login un pw (App.localStorage w)) as [r ls]. simpl in *. subst.
    by right.
Qed.

Lemma handleDeleteUser_eq userId w :
  App.handleDeleteUser userId w
  = (Resolved tt,
     App.mkWorld
       (App.mkState (App.loggedInUser (App.state w))
                    (List.filter (λ u, negb (User.id u === userId)) (App.users (App.state w)))
                    (App.logs (App.state w)) (App.isLoading (App.state w))
                    (App.isProcessing (App.state w)) (App.loginError (App.state w)))
       (App.timeguard_session w)
       (api.set_users
          (List.filter (λ u, negb (User.id u === userId))
                       (stored_users (App.localStorage w)))
          (App.localStorage w))).
Proof. reflexivity. Qed.

(** The frame of the administrator's handlers and of a login: they leave
    the logged-in user, the session item, the [logs] hook and the stored log
    as they were.  [handleLogin] is the exception for the first two. *)
Lemma act_admin_frame a w :
  match a with AddUser _ | UpdateUser _ | DeleteUser _ => True | _ => False end →
  App.loggedInUser (App.state (act a w)) = App.loggedInUser (App.state w)
  ∧ App.timeguard_session (act a w) = App.timeguard_session w
  ∧ App.logs (App.state (act a w)) = App.logs (App.state w)
  ∧ stored_logs (App.localStorage (act a w)) = stored_logs (App.localStorage w).
Proof.
  destruct a as [un pw| |env|user|patch|userId];
    try (intros H; exfalso; exact H); intros _; cbn [act].
  - by destruct (handleAddUser_cases user w) as [->| ->].
  - by destruct (handleUpdateUser_cases patch w) as [->| ->].
  - by rewrite handleDeleteUser_eq.
Qed.

Lemma act_session_coherent a w : session_coherent w → session_coherent (act a w).
Proof.
  unfold session_coherent, session_user. intros Hw.
  destruct a as [un pw| |env|user|patch|userId].
  - cbn [act]. by destruct (handleLogin_cases un pw w) as [(v & _ & ->)| ->].
  - done.
  - cbn [act].
    by destruct (handleCheckIn_cases env w) as [->|(u & ip & _ & [->| ->])].
  - by destruct (act_admin_frame (AddUser user) w I) as (-> & -> & _).
  - by destruct (act_admin_frame (UpdateUser patch) w I) as (-> & -> & _).
  - by destruct (act_admin_frame (DeleteUser userId) w I) as (-> & -> & _).
Qed.

Lemma start_session_cases session ls :
  (App.loggedInUser (App.state (start session ls)) = None
   ∧ session_user (start session ls) = None)
  ∨ ∃ p, session = Some (Json p)
         ∧ App.loggedInUser (App.state (start session ls)) = Some p
         ∧ session_user (start session ls) = Some p.
Proof.
  unfold start, session_user. destruct session as [[|p]|]; [by left| |by left].
  destruct (loadData_session
              (App.mkWorld App.initialState (Some (Json p)) (api.initializeData ls))
              p eq_refl) as [-> ->].
  destruct (existsb _ _); [right; by exists p|by left].
Qed.

Lemma acts_start_session_coherent session ls actions :
  session_coherent (acts actions (start session ls)).
Proof.
  apply acts_invariant; [apply act_session_coherent|].
  unfold session_coherent.
  by destruct (start_session_cases session ls) as [[-> ->]|(p & _ & -> & ->)].
Qed.

(** X15. The logged-in user is the session identity.  After the component
    has loaded, and after any number of uses of its handlers, somebody is
    logged in exactly when the session item holds an identity, and it is
    that identity; so what a page load restores is what was on the screen. *)
Theorem logged_in_user_is_session_identity
    (session : option (Text User)) (ls : api.LocalStorage) (actions : list Action) :
  let w := acts actions (start session ls) in
  App.loggedInUser (App.state w) = session_user w.
Proof.
  apply acts_start_session_coherent.
Qed.

Lemma act_no_password a w :
  no_password (App.loggedInUser (App.state w)) →
  no_password (App.loggedInUser (App.state (act a w))).
Proof.
  intros Hw. destruct a as [un pw| |env|user|patch|userId].
  - cbn [act]. by destruct (handleLogin_cases un pw w) as [(v & _ & ->)| ->].
  - done.
  - cbn [act].
    by destruct (handleCheckIn_cases env w) as [->|(u & ip & _ & [->| ->])].
  - by destruct (act_admin_frame (AddUser user) w I) as (-> & _).
  - by destruct (act_admin_frame (UpdateUser patch) w I) as (-> & _).
  - by destruct (act_admin_frame (DeleteUser userId) w I) as (-> & _).
Qed.

(** X16. No password reaches the screen or the session.  If the session
    item the browser starts with holds no password, then after the component
    has loaded and after any number of uses of its handlers, the logged-in
    user, the identity in the session item and every user the rendered view
    shows (the employees of the dashboard, or the current user of the
    employee view) are without password. *)
Theorem no_password_leaves_the_store
    (session : option (Text User)) (ls : api.LocalStorage) (actions : list Action) :
  no_password (session_user (App.mkWorld App.initialState session ls)) →
  let w := acts actions (start session ls) in
  no_password (App.loggedInUser (App.state w))
  ∧ no_password (session_user w)
  ∧ Forall (λ u, User.password u = None) (shown_users (App.render (App.state w))).
Proof.
  intros Hsession w.
  assert (Hlogged : no_password (App.loggedInUser (App.state w))).
  { apply (acts_invariant (λ w, no_password (App.loggedInUser (App.state w))));
      [apply act_no_password|].
    destruct (start_session_cases session ls) as [[-> _]|(p & -> & -> & _)]; done. }
  split; [done|]. split.
  { pose proof (acts_start_session_coherent session ls actions) as Hcoh.
    unfold session_coherent in Hcoh. fold w in Hcoh. by rewrite <- Hcoh. }
  pose proof (synced_no_password w (acts_start_synced session ls actions)) as Hhook.
  unfold App.render.
  destruct (App.isLoading (App.state w)); [by constructor|].
  destruct (App.loggedInUser (App.state w)) as [u|]; [|by constructor].
  destruct (User.role u); simpl.
  - apply List.Forall_forall. intros v Hin. apply filter_In in Hin as [Hin _].
    by apply (proj1 (List.Forall_forall _ _) Hhook).
  - by repeat constructor.
Qed.

Lemma no_password_leaves_the_store_witness :
  let admin := User.mk "admin-1" "Admin User" "admin" None Admin "Checked Out" None in
  let dave := User.mk "emp-4" "Dave" "dave" (Some "d1") Employee "Checked Out" None in
  let actions :=
    [AddUser dave; UpdateUser (User.mk "emp-2" "Bob" "bob" (Some "b0b") Employee
                                       "Checked Out" None)] in
  let w := acts actions (start (Some (Json admin)) (api.mkLocalStorage None None)) in
  (no_password (App.loggedInUser (App.state w))
   ∧ no_password (session_user w)
   ∧ Forall (λ u, User.password u = None) (shown_users (App.render (App.state w))))
  ∧ List.map User.username (shown_users (App.render (App.state w)))
    = ["alice"; "bob"; "charlie"; "dave"]
  ∧ List.map User.password (stored_users (App.localStorage w))
    = [Some "admin"; Some "alice123"; Some "b0b"; Some "charlie123"; Some "d1"].
Proof.
  intros admin dave actions w. split; [|split; reflexivity].
  apply (no_password_leaves_the_store (Some (Json admin))
           (api.mkLocalStorage None None) actions).
  reflexivity.
Defined.

Lemma act_logs_sublist a w :
  sublist (App.logs (App.state w)) (stored_logs (App.localStorage w)) →
  sublist (App.logs (App.state (act a w))) (stored_logs (App.localStorage (act a w))).
Proof.
  intros Hw. destruct a as [un pw| |env|user|patch|userId].
  - cbn [act]. by destruct (handleLogin_cases un pw w) as [(v & _ & ->)| ->].
  - done.
  - cbn [act].
    destruct (handleCheckIn_cases env w) as [->|(u & ip & _ & [->| ->])]; [done| |].
    + by apply sublist_cons.
    + by apply sublist_skip.
  - by destruct (act_admin_frame (AddUser user) w I) as (_ & _ & -> & ->).
  - by destruct (act_admin_frame (UpdateUser patch) w I) as (_ & _ & -> & ->).
  - by destruct (act_admin_frame (DeleteUser userId) w I) as (_ & _ & -> & ->).
Qed.

Lemma start_logs session ls :
  App.logs (App.state (start session ls))
  = stored_logs (App.localStorage (start session ls)).
Proof.
  unfold start, App.loadData. rewrite getUsers_eq, getLogs_eq.
  destruct session as [[|p]|]; simpl; try done.
  by destruct (existsb _ _).
Qed.

(** X17. The [logs] hook never shows an entry that is not stored.  After
    the component has loaded it holds the stored log; after any number of
    uses of the handlers its entries are entries of the stored log, in the
    stored order.  (Entries can be missing from it: the ones of check-ins
    that failed after the entry was stored.) *)
Theorem logs_hook_within_stored_log
    (session : option (Text User)) (ls : api.LocalStorage) (actions : list Action) :
  App.logs (App.state (start session ls))
  = stored_logs (App.localStorage (start session ls))
  ∧ sublist (App.logs (App.state (acts actions (start session ls))))
            (stored_logs (App.localStorage (acts actions (start session ls)))).
Proof.
  split; [apply start_logs|].
  apply (acts_invariant
           (λ w, sublist (App.logs (App.state w)) (stored_logs (App.localStorage w))));
    [apply act_logs_sublist|].
  by rewrite start_logs.
Qed.

(** ** More on single operations *)

(** X18. Every entry [handleCheckIn] stores has either a position and no
    [locationError], or no position and a [locationError] that is not the
    empty text: the reason of a failed geolocation is never lost and never
    invented. *)
Theorem stored_entry_location_or_reason
    (env : App.CheckInEnv) (w : App.World) (u : User) :
  authenticated w u →
  ∃ entry,
    stored_logs (App.localStorage (snd (App.handleCheckIn env w)))
    = entry :: stored_logs (App.localStorage w)
    ∧ ((∃ position, LogEntry.location entry = Some position
                    ∧ LogEntry.locationError entry = None
                    ∧ ¬ geolocation_failed (App.geolocation env))
       ∨ (∃ reason, LogEntry.location entry = None
                    ∧ LogEntry.locationError entry = Some reason
                    ∧ reason ≠ ""
                    ∧ geolocation_failed (App.geolocation env))).
Proof.
  intros Hauth.
  destruct (handleCheckIn_appends env w u Hauth) as (ip & _ & Hlogs).
  eexists. split; [exact Hlogs|]. simpl.
  destruct (newLog_of_context env u ip) as (_ & _ & _ & _ & Hgeo).
  destruct (App.geolocation env) as [|latitude longitude|code] eqn:Egeo.
  - right. simpl in Hgeo. destruct Hgeo as [-> ->]. by eexists.
  - left. simpl in Hgeo. destruct Hgeo as [-> ->]. eexists.
    split; [done|]. split; [done|]. by intros [].
  - right.
    destruct (getGeolocation_failed (locationService.PositionError code) I)
      as (error & Herr & Hne).
    rewrite Herr in Hgeo. destruct Hgeo as [-> ->]. by eexists.
Qed.

Lemma stored_entry_location_or_reason_witness :
  let alice := User.mk "emp-1" "Alice" "alice" None Employee "Checked Out" None in
  let w :=
    App.mkWorld (App.mkState (Some alice) [] [] false false None) (Some (Json alice))
                (api.initializeData (api.mkLocalStorage None None)) in
  let env :=
    App.mkCheckInEnv locationService.FetchRejected (locationService.PositionError 7)
                     1700000000000 1700000000600 1700000000700 in
  ∃ entry,
    stored_logs (App.localStorage (snd (App.handleCheckIn env w)))
    = entry :: stored_logs (App.localStorage w)
    ∧ ((∃ position, LogEntry.location entry = Some position
                    ∧ LogEntry.locationError entry = None
                    ∧ ¬ geolocation_failed (App.geolocation env))
       ∨ (∃ reason, LogEntry.location entry = None
                    ∧ LogEntry.locationError entry = Some reason
                    ∧ reason ≠ ""
                    ∧ geolocation_failed (App.geolocation env))).
Proof.
  intros alice w env.
  apply (stored_entry_location_or_reason env w alice). split; reflexivity.
Defined.

(** X19. A refused login changes nothing but the error shown: when [login]
    rejects the credentials, [handleLogin] leaves the logged-in user, the
    session item, the hooks and [localStorage] as they were and sets the
    login error to "Invalid username or password.". *)
Theorem handleLogin_refused (username password : string) (w : App.World) (error : Error) :
  fst (api.login username password (App.localStorage w)) = Rejected error →
  App.handleLogin username password w
  = App.mkWorld
      (App.mkState (App.loggedInUser (App.state w)) (App.users (App.state w))
                   (App.logs (App.state w)) (App.isLoading (App.state w))
                   (App.isProcessing (App.state w))
                   (Some "Invalid username or password."))
      (App.timeguard_session w) (App.localStorage w).
Proof.
  intros Hlogin.
  destruct (first_match_or_none User.username username
              (stored_users (App.localStorage w))) as [[v Hv]|Hnone].
  - pose proof (login_first_match username password _ _ Hv) as Hres.
    rewrite Hlogin in Hres. case_decide; [done|].
    destruct (handleLogin_cases username password w) as [(v' & _ & Hw)|Hw]; [|done].
    unfold App.handleLogin in *.
    destruct (api.login username password (App.localStorage w)) as [r ls].
    simpl in *. by subst.
  - destruct (handleLogin_cases username password w) as [(v' & _ & Hw)|Hw]; [|done].
    unfold App.handleLogin in *.
    destruct (api.login username password (App.localStorage w)) as [r ls].
    simpl in *. by subst.
Qed.

Lemma handleLogin_refused_witness :
  let alice := User.mk "emp-1" "Alice" "alice" None Employee "Checked In" None in
  let w :=
    App.mkWorld (App.mkState (Some alice) [] [] false false None) (Some (Json alice))
                (api.initializeData (api.mkLocalStorage None None)) in
  App.handleLogin "bob" "alice123" w
  = App.mkWorld (App.mkState (Some alice) [] [] false false
                             (Some "Invalid username or password."))
                (Some (Json alice)) (App.localStorage w).
Proof.
  intros alice w.
  apply (handleLogin_refused "bob" "alice123" w InvalidCredentials). reflexivity.
Defined.

(** X9. A deleted user cannot log in: when no two stored users share a
    username, after [deleteUser] with the identifier of a stored user,
    [login] with the username of that user rejects, whatever the password. *)
Theorem deleteUser_then_login (u : User) (password : string) (ls : api.LocalStorage) :
  NoDup (User.username <$> stored_users ls) →
  In u (stored_users ls) →
  let ls' := snd (api.deleteUser (User.id u) ls) in
  api.login (User.username u) password ls' = (Rejected InvalidCredentials, ls').
Proof.
  intros Hnd Hu ls'. apply pair_fst_snd; [|apply login_pure].
  apply login_no_match. intros v Hv Hname.
  unfold ls' in Hv. rewrite deleteUser_eq in Hv. simpl in Hv.
  rewrite stored_users_set_users in Hv.
  apply filter_other_id_In in Hv as [Hv Hid].
  apply list_elem_of_In, list_elem_of_lookup_1 in Hu as [i Hi].
  apply list_elem_of_In, list_elem_of_lookup_1 in Hv as [j Hj].
  assert (i = j) as ->.
  { apply (NoDup_lookup _ i j (User.username u) Hnd);
      rewrite list_lookup_fmap; [by rewrite Hi|by rewrite Hj; simpl; f_equal]. }
  congruence.
Qed.

Lemma deleteUser_then_login_witness :
  let ls := api.initializeData (api.mkLocalStorage None None) in
  let bob := User.mk "emp-2" "Bob" "bob" (Some "bob123") Employee "Checked Out" None in
  let ls' := snd (api.deleteUser "emp-2" ls) in
  fst (api.login "bob" "bob123" ls) = Resolved (api.stripPassword bob)
  ∧ api.login "bob" "bob123" ls' = (Rejected InvalidCredentials, ls').
Proof.
  intros ls bob. split; [reflexivity|].
  apply (deleteUser_then_login bob "bob123" ls).
  - apply (bool_decide_unpack _). by vm_compute.
  - vm_compute. auto.
Defined.
